(** * chatinstance-cli: the streaming chat session engine

    A shallow embedding of [ChatInstanceAPI.streamChat] (the API client) and
    of the interactive loop of [chatCommand] (the chat command), followed by
    the properties of the session engine that hold of them.

    Conventions.
    - A JavaScript string is the list of its UTF-16 code units ([jsstring]).
    - [JSON.parse] is a library function: the decoder is written over an
      arbitrary parser (a Section variable), and [Json.parse] is a concrete
      parser of the JSON grammar used to run the decoder on concrete streams.
    - A function that can throw returns an [option]; [None] is the throw.
    - The terminal is the list of things written to it, oldest first. *)

From Stdlib Require Import String Ascii Bool NArith ZArith QArith Qround.
From Stdlib Require Import Lia List.
Import ListNotations.

#[local] Set Warnings "-register-all".
Local Open Scope N_scope.

(* ================================================================== *)
(** * JavaScript strings *)

Module JS.

Definition jsstring := list N.

(** An ASCII literal as a JavaScript string. *)
Definition lit (s : string) : jsstring :=
  map N_of_ascii (list_ascii_of_string s).

(** An ASCII literal of wire text, in which ['] stands for the double quote
    and [$] for the line feed. *)
Definition wire (s : string) : jsstring :=
  map (fun c => if c =? 39 then 34 else if c =? 36 then 10 else c) (lit s).

(** [a === b] on strings. *)
Fixpoint str_eqb (a b : jsstring) : bool :=
  match a, b with
  | [], [] => true
  | x :: a', y :: b' => (x =? y) && str_eqb a' b'
  | _, _ => false
  end.

(** [s.startsWith(p)]. *)
Fixpoint startsWith (p s : jsstring) : bool :=
  match p, s with
  | [], _ => true
  | x :: p', y :: s' => (x =? y) && startsWith p' s'
  | _ :: _, [] => false
  end.

(** [s.slice(n)] for a start index [n >= 0]. *)
Definition slice (n : nat) (s : jsstring) : jsstring := skipn n s.

(** The code units that [String.prototype.trim] strips: ECMAScript's
    WhiteSpace and LineTerminator productions. *)
Definition is_space (c : N) : bool :=
  (c =? 9) || (c =? 10) || (c =? 11) || (c =? 12) || (c =? 13) || (c =? 32)
  || (c =? 160) || (c =? 5760) || ((8192 <=? c) && (c <=? 8202))
  || (c =? 8232) || (c =? 8233) || (c =? 8239) || (c =? 8287)
  || (c =? 12288) || (c =? 65279).

Fixpoint trimStart (s : jsstring) : jsstring :=
  match s with
  | [] => []
  | c :: r => if is_space c then trimStart r else s
  end.

Definition trimEnd (s : jsstring) : jsstring := rev (trimStart (rev s)).

(** [s.trim()]. *)
Definition trim (s : jsstring) : jsstring := trimEnd (trimStart s).

(** [s.split(sep)] for a separator of one code unit: never the empty array,
    [''.split(sep)] is [['']]. *)
Fixpoint split (sep : N) (s : jsstring) : list jsstring :=
  match s with
  | [] => [[]]
  | c :: r =>
      if c =? sep then [] :: split sep r
      else match split sep r with
           | [] => [[c]]
           | l :: ls => (c :: l) :: ls
           end
  end.

(** [s.toLowerCase()], exact on every code unit whose lower case contains an
    ASCII letter: [A]-[Z], U+212A KELVIN SIGN (lower case [k]) and U+0130
    (lower case [i] followed by U+0307).  Every other code unit is kept; its
    lower case, whatever it is, is not ASCII, so comparisons of the result
    against ASCII words, the only use [chatCommand] makes of it, are exact. *)
Definition lower_unit (c : N) : jsstring :=
  if (65 <=? c) && (c <=? 90) then [c + 32]
  else if c =? 8490 then [107]
  else if c =? 304 then [105; 775]
  else [c].

Definition toLowerCase (s : jsstring) : jsstring := flat_map lower_unit s.

(** Truthiness of a value that is a string or [undefined]. *)
Definition truthy_str (s : option jsstring) : bool :=
  match s with
  | Some (_ :: _) => true
  | _ => false
  end.

(** [a || b] where [a] is a string or [undefined]. *)
Definition or_else (a : option jsstring) (b : jsstring) : jsstring :=
  match a with
  | Some (c :: r) => c :: r
  | _ => b
  end.

End JS.

Import JS.

(* ================================================================== *)
(** * JSON values and [JSON.parse] *)

Module Json.

Inductive json :=
| JNull
| JBool (b : bool)
| JNumber (text : jsstring)
| JString (s : jsstring)
| JArray (items : list json)
| JObject (members : list (jsstring * json)).

(** JSON insignificant whitespace: space, tab, line feed, carriage return. *)
Definition is_ws (c : N) : bool :=
  (c =? 32) || (c =? 9) || (c =? 10) || (c =? 13).

Fixpoint skip_ws (s : jsstring) : jsstring :=
  match s with
  | [] => []
  | c :: r => if is_ws c then skip_ws r else s
  end.

Definition is_digit (c : N) : bool := (48 <=? c) && (c <=? 57).

Definition hex_digit (c : N) : option N :=
  if (48 <=? c) && (c <=? 57) then Some (c - 48)
  else if (97 <=? c) && (c <=? 102) then Some (c - 87)
  else if (65 <=? c) && (c <=? 70) then Some (c - 55)
  else None.

Definition hex4 (a b c d : N) : option N :=
  match hex_digit a, hex_digit b, hex_digit c, hex_digit d with
  | Some x, Some y, Some z, Some w => Some (((x * 16 + y) * 16 + z) * 16 + w)
  | _, _, _, _ => None
  end.

(** The single-character escapes of a JSON string. *)
Definition unescape (e : N) : option N :=
  if e =? 34 then Some 34          (* quotation mark *)
  else if e =? 92 then Some 92     (* reverse solidus *)
  else if e =? 47 then Some 47     (* solidus *)
  else if e =? 98 then Some 8      (* b: backspace *)
  else if e =? 102 then Some 12    (* f: form feed *)
  else if e =? 110 then Some 10    (* n: line feed *)
  else if e =? 114 then Some 13    (* r: carriage return *)
  else if e =? 116 then Some 9     (* t: tab *)
  else None.

(** The characters of a string after its opening quote, up to and including
    the closing quote. [acc] holds the decoded code units, newest first. *)
Fixpoint string_body (s acc : jsstring) : option (jsstring * jsstring) :=
  match s with
  | [] => None
  | c :: r =>
      if c =? 34 then Some (rev acc, r)
      else if c =? 92 then
        match r with
        | [] => None
        | e :: r1 =>
            if e =? 117 then
              match r1 with
              | h1 :: h2 :: h3 :: h4 :: r2 =>
                  match hex4 h1 h2 h3 h4 with
                  | Some u => string_body r2 (u :: acc)
                  | None => None
                  end
              | _ => None
              end
            else
              match unescape e with
              | Some u => string_body r1 (u :: acc)
              | None => None
              end
        end
      else if c <? 32 then None
      else string_body r (c :: acc)
  end.

(** The longest prefix of digits, and what follows it. *)
Fixpoint digits (s : jsstring) : jsstring * jsstring :=
  match s with
  | [] => ([], [])
  | c :: r =>
      if is_digit c then let (ds, r') := digits r in (c :: ds, r')
      else ([], s)
  end.

(** The parts of a number token; each gives the text it takes and what
    follows it.  The sign: an optional minus. *)
Definition sign_part (s : jsstring) : jsstring * jsstring :=
  match s with
  | c :: r => if c =? 45 then ([45], r) else ([], s)
  | [] => ([], s)
  end.

(** The integer part: [0], or a non-zero digit and any digits. *)
Definition int_part (s : jsstring) : option (jsstring * jsstring) :=
  match s with
  | [] => None
  | d :: r =>
      if d =? 48 then Some ([48], r)
      else if is_digit d then let (ds, r') := digits r in Some (d :: ds, r')
      else None
  end.

(** The optional fraction: a point and at least one digit. *)
Definition frac_part (s : jsstring) : option (jsstring * jsstring) :=
  match s with
  | c :: r =>
      if c =? 46 then
        match digits r with
        | ([], _) => None
        | (d :: ds, r') => Some (46 :: d :: ds, r')
        end
      else Some ([], s)
  | [] => Some ([], s)
  end.

(** The optional exponent: [e] or [E], an optional sign, at least one
    digit. *)
Definition exp_part (s : jsstring) : option (jsstring * jsstring) :=
  match s with
  | c :: r =>
      if (c =? 101) || (c =? 69) then
        let (sg, r') :=
          match r with
          | g :: t => if (g =? 43) || (g =? 45) then ([g], t) else ([], r)
          | [] => ([], r)
          end in
        match digits r' with
        | ([], _) => None
        | (d :: ds, r'') => Some (c :: sg ++ d :: ds, r'')
        end
      else Some ([], s)
  | [] => Some ([], s)
  end.

(** A number token; its text is kept. *)
Definition number (s : jsstring) : option (jsstring * jsstring) :=
  let (sg, s1) := sign_part s in
  match int_part s1 with
  | None => None
  | Some (ip, s2) =>
      match frac_part s2 with
      | None => None
      | Some (fp, s3) =>
          match exp_part s3 with
          | None => None
          | Some (ep, s4) => Some (sg ++ ip ++ fp ++ ep, s4)
          end
      end
  end.

(** A literal word [w] at the head of [s]. *)
Definition word (w : jsstring) (v : json) (s : jsstring)
  : option (json * jsstring) :=
  if startsWith w s then Some (v, skipn (length w) s) else None.

Definition TRUE : jsstring := Eval cbv in lit "true".
Definition FALSE : jsstring := Eval cbv in lit "false".
Definition NULL : jsstring := Eval cbv in lit "null".

(** Recursive descent on the JSON grammar.  Each call spends one unit of
    [fuel]; twice the length of the text is enough ([fuel_enough]). *)
Fixpoint value (fuel : nat) (s : jsstring) : option (json * jsstring) :=
  match fuel with
  | O => None
  | S fuel' =>
      match skip_ws s with
      | [] => None
      | c :: r =>
          if c =? 123 then
            match skip_ws r with
            | [] => None
            | c' :: r' =>
                if c' =? 125 then Some (JObject [], r')
                else match members fuel' (c' :: r') with
                     | Some (ms, r'') => Some (JObject ms, r'')
                     | None => None
                     end
            end
          else if c =? 91 then
            match skip_ws r with
            | [] => None
            | c' :: r' =>
                if c' =? 93 then Some (JArray [], r')
                else match elements fuel' (c' :: r') with
                     | Some (vs, r'') => Some (JArray vs, r'')
                     | None => None
                     end
            end
          else if c =? 34 then
            match string_body r [] with
            | Some (str, r') => Some (JString str, r')
            | None => None
            end
          else if c =? 116 then word TRUE (JBool true) (c :: r)
          else if c =? 102 then word FALSE (JBool false) (c :: r)
          else if c =? 110 then word NULL JNull (c :: r)
          else
            match number (c :: r) with
            | Some (t, r') => Some (JNumber t, r')
            | None => None
            end
      end
  end

with elements (fuel : nat) (s : jsstring) : option (list json * jsstring) :=
  match fuel with
  | O => None
  | S fuel' =>
      match value fuel' s with
      | None => None
      | Some (v, r) =>
          match skip_ws r with
          | [] => None
          | c :: r' =>
              if c =? 44 then
                match elements fuel' r' with
                | Some (vs, r'') => Some (v :: vs, r'')
                | None => None
                end
              else if c =? 93 then Some ([v], r')
              else None
          end
      end
  end

with members (fuel : nat) (s : jsstring)
  : option (list (jsstring * json) * jsstring) :=
  match fuel with
  | O => None
  | S fuel' =>
      match skip_ws s with
      | [] => None
      | q :: r0 =>
          if q =? 34 then
            match string_body r0 [] with
            | None => None
            | Some (key, r1) =>
                match skip_ws r1 with
                | [] => None
                | colon :: r2 =>
                    if colon =? 58 then
                      match value fuel' r2 with
                      | None => None
                      | Some (v, r3) =>
                          match skip_ws r3 with
                          | [] => None
                          | c :: r4 =>
                              if c =? 44 then
                                match members fuel' r4 with
                                | Some (ms, r5) => Some ((key, v) :: ms, r5)
                                | None => None
                                end
                              else if c =? 125 then Some ([(key, v)], r4)
                              else None
                          end
                      end
                    else None
                end
            end
          else None
      end
  end.

(** [JSON.parse(text)]: one value, surrounded by whitespace only.
    [None] is the [SyntaxError]. *)
Definition parse (text : jsstring) : option json :=
  match value (2 * length text + 2) text with
  | Some (v, r) => match skip_ws r with [] => Some v | _ :: _ => None end
  | None => None
  end.

(** The own property [key] of an object built by [JSON.parse]: of several
    members with one key the last one wins. *)
Fixpoint lookup (key : jsstring) (ms : list (jsstring * json)) : option json :=
  match ms with
  | [] => None
  | (k, v) :: rest =>
      match lookup key rest with
      | Some v' => Some v'
      | None => if str_eqb k key then Some v else None
      end
  end.

(** [v.name] for a value [v] that is neither [null] nor [undefined] and a
    [name] that no prototype defines ([choices], [delta], [content]):
    [None] is [undefined]. *)
Definition member (name : jsstring) (v : json) : option json :=
  match v with
  | JObject ms => lookup name ms
  | _ => None
  end.

(** [v[0]] for a value [v] that is neither [null] nor [undefined]. *)
Definition elem0 (v : json) : option json :=
  match v with
  | JObject ms => lookup [48] ms
  | JArray items => hd_error items
  | JString (c :: _) => Some (JString [c])
  | _ => None
  end.

(** [v?.k]: [undefined] when [v] is [null] or [undefined]. *)
Definition opt_chain (v : option json) (get : json -> option json)
  : option json :=
  match v with
  | None => None
  | Some JNull => None
  | Some j => get j
  end.

(** The value of a run of decimal digits. *)
Definition digits_value (ds : jsstring) : N :=
  fold_left (fun n d => 10 * n + (d - 48)) ds 0.

(** The signed value of the digits of an exponent, after its [e]. *)
Definition exponent_value (s : jsstring) : Z :=
  match s with
  | g :: t =>
      if g =? 45 then Z.opp (Z.of_N (digits_value (fst (digits t))))
      else if g =? 43 then Z.of_N (digits_value (fst (digits t)))
      else Z.of_N (digits_value (fst (digits s)))
  | [] => 0%Z
  end.

(** The magnitude of a number token as [m * 10^e]: [m] is its integer and
    fraction digits read as one run, [e] its exponent less the number of
    fraction digits. *)
Definition decimal_parts (text : jsstring) : N * Z :=
  let (_, s1) := sign_part text in
  let (ip, s2) := digits s1 in
  let (fp, s3) :=
    match s2 with
    | c :: r => if c =? 46 then digits r else ([], s2)
    | [] => ([], s2)
    end in
  let ex :=
    match s3 with
    | c :: r => if (c =? 101) || (c =? 69) then exponent_value r else 0%Z
    | [] => 0%Z
    end in
  (digits_value (ip ++ fp), (ex - Z.of_nat (length fp))%Z).

(** The Number that [JSON.parse] makes of a token is the double nearest to
    its value, ties to even.  That double is [0] or [-0] exactly when the
    magnitude is at most [2^-1075], half the least positive double: for
    [m * 10^e] when [m = 0], or [e < 0] and [m * 2^1075 <= 10^-e].  So [0.0],
    [0e5] and [1e-400] are zero, [5e-324] is not. *)
Definition rounds_to_zero (text : jsstring) : bool :=
  let (m, e) := decimal_parts text in
  (m =? 0) || ((e <? 0)%Z && (m * 2 ^ 1075 <=? 10 ^ Z.to_N (- e))).

(** Truthiness of a value, [undefined] being [None]. *)
Definition truthy (v : option json) : bool :=
  match v with
  | None => false
  | Some JNull => false
  | Some (JBool b) => b
  | Some (JNumber t) => negb (rounds_to_zero t)
  | Some (JString s) => match s with [] => false | _ :: _ => true end
  | Some (JArray _) => true
  | Some (JObject _) => true
  end.

End Json.

Import Json.

(* ================================================================== *)
(** * [ChatInstanceAPI.streamChat]: the event-stream decoder *)

Module Client.

Definition DATA_PREFIX : jsstring := Eval cbv in lit "data: ".
Definition DONE : jsstring := Eval cbv in lit "[DONE]".
Definition CHOICES : jsstring := Eval cbv in lit "choices".
Definition DELTA : jsstring := Eval cbv in lit "delta".
Definition CONTENT : jsstring := Eval cbv in lit "content".

(** [parsed.choices?.[0]?.delta?.content].  The first access is a plain one:
    it throws a [TypeError] on [null] (outer [None]).  The inner [None] is
    [undefined]. *)
Definition deltaContent (parsed : json) : option (option json) :=
  match parsed with
  | JNull => None
  | _ =>
      Some (opt_chain (opt_chain (opt_chain (member CHOICES parsed) elem0)
                                 (member DELTA))
                      (member CONTENT))
  end.

(** How a stream ends when it is not cut short by the sentinel: the [end]
    event or the [error] event. *)
Inductive stream_end :=
| StreamEnd
| StreamError (message : jsstring).

(** How the promise returned by [streamChat] settles. *)
Inductive settled :=
| Resolved
| Rejected (message : jsstring).

Section Decoder.

(** [JSON.parse]; [None] is the [SyntaxError]. *)
Variable JSON_parse : jsstring -> option json.

(** The body of the [try] block for one payload: the value handed to
    [onChunk], if any.  Whatever is thrown in the block ([JSON.parse]'s
    [SyntaxError], the [TypeError] of reading [choices] of [null], or an
    exception of [onChunk] itself) is swallowed by the empty [catch], and the
    loop goes on with the next line either way; so the calls made do not
    depend on what [onChunk] does. *)
Definition payloadCall (data : jsstring) : option json :=
  match JSON_parse data with
  | None => None
  | Some parsed =>
      match deltaContent parsed with
      | None => None
      | Some c => if truthy c then c else None
      end
  end.

(** The [for (const line of lines)] loop of the [data] listener: the values
    handed to [onChunk], in order, and whether the loop left through
    [resolve(); return]. *)
Fixpoint processLines (lines : list jsstring) : list json * bool :=
  match lines with
  | [] => ([], false)
  | line :: rest =>
      if startsWith DATA_PREFIX line then
        let data := trim (slice 6 line) in
        if str_eqb data DONE then ([], true)
        else
          match payloadCall data with
          | Some c => let (cs, fin) := processLines rest in (c :: cs, fin)
          | None => processLines rest
          end
      else processLines rest
  end.

(** The [data] listener, applied to one chunk ([chunk.toString()]). *)
Definition onData (chunk : jsstring) : list json * bool :=
  processLines (split 10 chunk).

(** The outcome of a stream: the [onChunk] calls made until the promise
    settles, and how it settles.  The promise resolves at the first sentinel
    line, otherwise it resolves on [end] and rejects on [error].  Each chunk
    is taken to arrive in a turn of the event loop of its own, so that the
    code awaiting the promise resumes right after the chunk that settles
    it. *)
Fixpoint feed (chunks : list jsstring) (fin : stream_end)
  : list json * settled :=
  match chunks with
  | [] =>
      ([], match fin with
           | StreamEnd => Resolved
           | StreamError m => Rejected m
           end)
  | chunk :: rest =>
      let (calls, done) := onData chunk in
      if done then (calls, Resolved)
      else let (calls', out) := feed rest fin in (calls ++ calls', out)
  end.

(** The listener is never detached: it also runs on the chunks that arrive
    after the promise has resolved.  These are all the calls it makes over
    a whole stream; [feed] gives a prefix of them. *)
Definition allCalls (chunks : list jsstring) : list json :=
  flat_map (fun chunk => fst (onData chunk)) chunks.

(** The calls the listener still makes after the sentinel has resolved the
    promise: those of the chunks that arrive after the sentinel's chunk.
    (The lines that follow the sentinel in its own chunk are never read.) *)
Fixpoint lateCalls (chunks : list jsstring) : list json :=
  match chunks with
  | [] => []
  | chunk :: rest =>
      if snd (onData chunk) then allCalls rest else lateCalls rest
  end.

End Decoder.

(** What the server does with one streaming request: [client.post] rejects,
    or it resolves with a stream that delivers [chunks] and then ends. *)
Inductive stream_reply :=
| PostRejected (message : jsstring)
| Streaming (chunks : list jsstring) (fin : stream_end).

(** [streamChat(request, onChunk)]: the calls made to [onChunk] until the
    promise settles, and how it settles. *)
Definition streamChat (JSON_parse : jsstring -> option json)
    (reply : stream_reply) : list json * settled :=
  match reply with
  | PostRejected m => ([], Rejected m)
  | Streaming chunks fin => feed JSON_parse chunks fin
  end.

(** The calls made to [onChunk] after the promise of [streamChat] has
    settled, until the stream is over. *)
Definition streamLate (JSON_parse : jsstring -> option json)
    (reply : stream_reply) : list json :=
  match reply with
  | PostRejected _ => []
  | Streaming chunks _ => lateCalls JSON_parse chunks
  end.

End Client.

Import Client.

(* ================================================================== *)
(** * [chatCommand]: the interactive session loop *)

Module Chat.

Inductive Role := system | user | assistant.

Record ChatMessage := { role : Role; content : jsstring }.

(** The request object handed to [api.chat] or [api.streamChat].  The
    [messages] array is the session's own array, read when the request is
    sent; nothing writes to it before the call has settled. *)
Record ChatRequest := {
  req_provider : jsstring;
  req_model : jsstring;
  req_messages : list ChatMessage;
  req_stream : option bool
}.

(** The fields of a [ChatResponse] that [chatCommand] reads: the
    [message.content] of each choice and [usage.total_tokens]. *)
Record ChatResponse := {
  choices : list jsstring;
  total_tokens : N
}.

Inductive chat_reply :=
| ChatRejected (message : jsstring)
| ChatReplied (response : ChatResponse).

(** What the service answers to the request of one turn, asked either way. *)
Record server := {
  chat_answer : chat_reply;
  stream_answer : stream_reply
}.

(** The command line options of [chatinstance chat]. *)
Record Options := {
  opt_provider : option jsstring;
  opt_model : option jsstring;
  opt_system : option jsstring;
  opt_stream : option bool
}.

(** The stored configuration values that [chatCommand] reads. *)
Record Config := {
  apiKey : option jsstring;
  defaultProvider : option jsstring;
  defaultModel : option jsstring;
  streamResponse : option bool
}.

(** [ConfigManager.get(key, defaultValue)]. *)
Definition get {A : Type} (value : option A) (defaultValue : A) : A :=
  match value with
  | Some v => v
  | None => defaultValue
  end.

(** What can be put on the terminal.  A notice stands for the lines that
    show it; colours, box drawing and line wrapping are not modelled. *)
Inductive notice :=
| Blank
| Header
| ConnectedTo (provider model : jsstring)
| HelpHint
| Rule (short : bool)
| Help
| Goodbye
| Cleared
| SwitchedTo (name : jsstring)
| ProviderUsage
| EstimatedTokens (n : Z)
| UnknownCommand (command : jsstring)
| AiLabel
| Response (text : jsstring)
| Tokens (n : N)
| PleaseLogin
| ErrorMessage (message : jsstring)
| ChatFailed.

Inductive output :=
| Write (chunk : jsstring)      (* process.stdout.write(chunk) *)
| WritePrefix                   (* process.stdout.write of the AI label *)
| Log (n : notice)              (* console.log *)
| LogError (n : notice)         (* console.error *)
| ClearScreen
| SpinnerStart
| SpinnerStop.

(** The state of a session: the [messages] array, the terminal, the requests
    handed to the API client so far, and whether the process still runs. *)
Record session := {
  messages : list ChatMessage;
  terminal : list output;
  sent : list ChatRequest;
  alive : bool
}.

Definition CHATGPT : jsstring := Eval cbv in lit "chatgpt".
Definition GPT4O : jsstring := Eval cbv in lit "gpt-4o".
Definition HELP : jsstring := Eval cbv in lit "help".
Definition EXIT : jsstring := Eval cbv in lit "exit".
Definition QUIT : jsstring := Eval cbv in lit "quit".
Definition CLEAR : jsstring := Eval cbv in lit "clear".
Definition PROVIDER : jsstring := Eval cbv in lit "provider".
Definition TOKENS : jsstring := Eval cbv in lit "tokens".
Definition SLASH : jsstring := Eval cbv in lit "/".
Definition NO_MESSAGE : jsstring :=
  Eval cbv in lit "Cannot read properties of undefined (reading 'message')".

(** [validate] of the prompt: [input.trim().length > 0]. *)
Definition validate (input : jsstring) : bool :=
  match trim input with
  | [] => false
  | _ :: _ => true
  end.

(** [messages.reduce((sum, msg) => sum + (msg.content.length / 4), 0)].
    Every value met is a multiple of 1/4, which a double holds exactly below
    2^51, so the fold is written over the rationals. *)
Definition totalTokens (msgs : list ChatMessage) : Q :=
  fold_left
    (fun sum msg => (sum + inject_Z (Z.of_nat (length (content msg))) / 4)%Q)
    msgs 0%Q.

(** The callback [chatCommand] passes to [streamChat]:
    [process.stdout.write(chunk); response += chunk].  [write] throws
    [ERR_INVALID_ARG_TYPE] on a chunk that is not a string, before anything
    is appended, and [streamChat] swallows the exception: such a call
    leaves terminal and [response] as they were. *)
Definition fragment_of (chunk : json) : option jsstring :=
  match chunk with
  | JString s => Some s
  | _ => None
  end.

Definition onChunk (acc : list output * jsstring) (chunk : json)
  : list output * jsstring :=
  match fragment_of chunk with
  | Some s => (fst acc ++ [Write s], snd acc ++ s)
  | None => acc
  end.

(** The writes and the value of [response] after a sequence of calls. *)
Definition aggregate (calls : list json) : list output * jsstring :=
  fold_left onChunk calls ([], []).

Section Session.

Variable JSON_parse : jsstring -> option json.
Variable config : Config.
Variable options : Options.

Definition provider : jsstring :=
  or_else (opt_provider options) (get (defaultProvider config) CHATGPT).

Definition model : jsstring :=
  or_else (opt_model options) (get (defaultModel config) GPT4O).

Definition useStream : bool :=
  match opt_stream options with
  | Some true => true
  | _ => get (streamResponse config) false
  end.

(** [messages] as it is at the start of a session and after [/clear]:
    the system message, if [options.system] is truthy. *)
Definition seed : list ChatMessage :=
  match opt_system options with
  | Some (c :: r) => [{| role := system; content := c :: r |}]
  | _ => []
  end.

(** The state in which the loop is entered; without an API key the process
    exits before the loop.  The header box is taken to fit the terminal
    here; [chatEntry] below is the start on a terminal of any width. *)
Definition start : session :=
  if truthy_str (apiKey config) then
    {| messages := seed;
       terminal := [ClearScreen; Log Header; Log (ConnectedTo provider model);
                    Log HelpHint; Log (Rule false); Log Blank];
       sent := [];
       alive := true |}
  else
    {| messages := []; terminal := [LogError PleaseLogin];
       sent := []; alive := false |}.

Definition say (out : list output) (st : session) : session :=
  {| messages := messages st; terminal := terminal st ++ out;
     sent := sent st; alive := alive st |}.

(** The [switch] on a slash command; [userInput] starts with [/]. *)
Definition slashCommand (userInput : jsstring) (st : session) : session :=
  let parts := split 32 (slice 1 userInput) in
  let command := hd [] parts in
  let args := tl parts in
  let name := toLowerCase command in
  if str_eqb name HELP then say [Log Help] st
  else if str_eqb name EXIT || str_eqb name QUIT then
    {| messages := messages st;
       terminal := terminal st ++ [Log Blank; Log Goodbye; Log Blank];
       sent := sent st; alive := false |}
  else if str_eqb name CLEAR then
    {| messages := seed;
       terminal := terminal st ++
                   [ClearScreen; Log Header; Log (ConnectedTo provider model);
                    Log Cleared; Log (Rule false); Log Blank];
       sent := sent st; alive := alive st |}
  else if str_eqb name PROVIDER then
    match hd_error args with
    | Some (c :: r) => say [Log (SwitchedTo (c :: r))] st
    | _ => say [Log ProviderUsage] st
    end
  else if str_eqb name TOKENS then
    say [Log (EstimatedTokens (Qceiling (totalTokens (messages st))))] st
  else say [Log (UnknownCommand command)] st.

(** A chat turn: everything from [messages.push] of the user message to the
    end of the loop body, and then what the callback still writes: the
    stream's listener stays attached, so the fragments of the chunks that
    arrive after the promise has resolved are written to the terminal (and
    appended to a [response] that nobody reads any more).  These chunks are
    taken to arrive before the next line is submitted at the prompt. *)
Definition chatTurn (userInput : jsstring) (srv : server) (st : session)
  : session :=
  let msgs := messages st ++ [{| role := user; content := userInput |}] in
  let before := [Log Blank; Log (Rule true); SpinnerStart] in
  let after := [Log Blank; Log (Rule false); Log Blank] in
  let caught m := [SpinnerStop; Log Blank; LogError (ErrorMessage m)] in
  if useStream then
    let request := {| req_provider := provider; req_model := model;
                      req_messages := msgs; req_stream := Some true |} in
    let (calls, outcome) := streamChat JSON_parse (stream_answer srv) in
    let (writes, response) := aggregate calls in
    let late := fst (aggregate (streamLate JSON_parse (stream_answer srv))) in
    let shown := before ++ [SpinnerStop; Log Blank; WritePrefix] ++ writes in
    match outcome with
    | Resolved =>
        {| messages := msgs ++ [{| role := assistant; content := response |}];
           terminal := terminal st ++ shown ++ [Log Blank] ++ after ++ late;
           sent := sent st ++ [request]; alive := alive st |}
    | Rejected m =>
        {| messages := msgs;
           terminal := terminal st ++ shown ++ caught m ++ after;
           sent := sent st ++ [request]; alive := alive st |}
    end
  else
    let request := {| req_provider := provider; req_model := model;
                      req_messages := msgs; req_stream := None |} in
    match chat_answer srv with
    | ChatRejected m =>
        {| messages := msgs;
           terminal := terminal st ++ before ++ caught m ++ after;
           sent := sent st ++ [request]; alive := alive st |}
    | ChatReplied response =>
        let opened := before ++ [SpinnerStop; Log Blank; Log AiLabel] in
        match choices response with
        | [] =>
            {| messages := msgs;
               terminal := terminal st ++ opened ++ caught NO_MESSAGE
                           ++ after;
               sent := sent st ++ [request]; alive := alive st |}
        | text :: _ =>
            {| messages := msgs ++ [{| role := assistant; content := text |}];
               terminal := terminal st ++ opened ++
                           [Log (Response text); Log Blank;
                            Log (Tokens (total_tokens response))] ++ after;
               sent := sent st ++ [request]; alive := alive st |}
        end
    end.

(** One round of the [while (true)] loop on a line submitted at the prompt.
    A line that [validate] refuses never leaves the prompt; after
    [process.exit] there is no further round. *)
Definition iteration (st : session) (input : jsstring) (srv : server)
  : session :=
  if negb (alive st) then st
  else if negb (validate input) then st
  else
    let userInput := trim input in
    if startsWith SLASH userInput then slashCommand userInput st
    else chatTurn userInput srv st.

(** The loop over the lines submitted one after the other, each with what
    the service answers during that round. *)
Fixpoint run (st : session) (rounds : list (jsstring * server)) : session :=
  match rounds with
  | [] => st
  | (input, srv) :: rest => run (iteration st input srv) rest
  end.

(** [chatCommand(options)], driven by the lines submitted at its prompt. *)
Definition chatCommand (rounds : list (jsstring * server)) : session :=
  run start rounds.

(** Whether the call of a chat turn rejects or throws, so that the [catch]
    block runs. *)
Definition callFails (srv : server) : bool :=
  if useStream then
    match snd (streamChat JSON_parse (stream_answer srv)) with
    | Resolved => false
    | Rejected _ => true
    end
  else
    match chat_answer srv with
    | ChatRejected _ => true
    | ChatReplied response =>
        match choices response with [] => true | _ :: _ => false end
    end.

(** The text of the reply of a call that succeeds: the value of [response]
    once the stream has settled, or the content of the first choice. *)
Definition replyText (srv : server) : option jsstring :=
  if useStream then
    match streamChat JSON_parse (stream_answer srv) with
    | (calls, Resolved) => Some (snd (aggregate calls))
    | (_, Rejected _) => None
    end
  else
    match chat_answer srv with
    | ChatRejected _ => None
    | ChatReplied response => hd_error (choices response)
    end.

End Session.

End Chat.

Import Chat.

(* ================================================================== *)
(** * Vocabulary of the properties *)

(** A chunk after which a split falls on a line boundary: it is empty or its
    last code unit is the line feed. *)
Definition ends_line (chunk : jsstring) : bool :=
  match rev chunk with
  | [] => true
  | c :: _ => c =? 10
  end.

(** A way of cutting a stream into chunks in which every cut falls on a line
    boundary. *)
Fixpoint line_aligned (chunks : list jsstring) : bool :=
  match chunks with
  | [] => true
  | chunk :: rest =>
      match rest with
      | [] => true
      | _ :: _ => ends_line chunk && line_aligned rest
      end
  end.

(** What the listener does on two runs of lines, one after the other. *)
Definition andThen (first second : list json * bool) : list json * bool :=
  if snd first then (fst first, true)
  else (fst first ++ fst second, snd second).

(** The shape that the protocol gives a payload: an object whose [choices]
    is an array of objects, each with a [delta] object whose [content], when
    there is one, is a string. *)
Definition deltaShape (d : json) : bool :=
  match d with
  | JObject md =>
      match lookup CONTENT md with
      | None | Some (JString _) => true
      | Some _ => false
      end
  | _ => false
  end.

Definition choiceShape (c : json) : bool :=
  match c with
  | JObject mc =>
      match lookup DELTA mc with
      | Some d => deltaShape d
      | None => false
      end
  | _ => false
  end.

Definition expectedShape (parsed : json) : bool :=
  match parsed with
  | JObject ms =>
      match lookup CHOICES ms with
      | Some (JArray items) => forallb choiceShape items
      | _ => false
      end
  | _ => false
  end.

(** The content fragment of a payload of the expected shape: the [content]
    of the [delta] of its first choice. *)
Definition shapeContent (parsed : json) : option jsstring :=
  match parsed with
  | JObject ms =>
      match lookup CHOICES ms with
      | Some (JArray (JObject mc :: _)) =>
          match lookup DELTA mc with
          | Some (JObject md) =>
              match lookup CONTENT md with
              | Some (JString s) => Some s
              | _ => None
              end
          | _ => None
          end
      | _ => None
      end
  | _ => None
  end.

(** A valid record: a data line, not the sentinel, whose payload parses to a
    value of the expected shape with the content fragment [s]. *)
Definition validRecord (JSON_parse : jsstring -> option json)
    (line s : jsstring) : Prop :=
  startsWith DATA_PREFIX line = true /\
  trim (slice 6 line) <> DONE /\
  exists parsed,
    JSON_parse (trim (slice 6 line)) = Some parsed /\
    expectedShape parsed = true /\
    shapeContent parsed = Some s.

(** The calls that deliver a fragment: one, or none for the empty one. *)
Definition delivery (s : jsstring) : list json :=
  match s with
  | [] => []
  | _ :: _ => [JString s]
  end.

(** The first choice of what stands under [choices]: the first element of an
    array, or what an object has under the key [0]. *)
Definition firstChoice (ch : json) : option json :=
  match ch with
  | JArray (first :: _) => Some first
  | JObject ms => lookup [48] ms
  | _ => None
  end.

(** What a JSON value holds at the place of a fragment: in an object, under
    [choices]; there, as first choice, an object; in it, under [delta], an
    object; in it, under [content], any value. *)
Definition carried (parsed : json) : option json :=
  match parsed with
  | JObject ms =>
      match lookup CHOICES ms with
      | Some ch =>
          match firstChoice ch with
          | Some (JObject mc) =>
              match lookup DELTA mc with
              | Some (JObject md) => lookup CONTENT md
              | _ => None
              end
          | _ => None
          end
      | None => None
      end
  | _ => None
  end.

(** A payload with nothing to deliver: it is no JSON text, or its value
    holds nothing at the place of a fragment, or something falsy ([null],
    [false], a zero, the empty string). *)
Definition unusable (JSON_parse : jsstring -> option json)
    (data : jsstring) : bool :=
  match JSON_parse data with
  | None => true
  | Some parsed => negb (truthy (carried parsed))
  end.

(** The content fragments among the values handed to [onChunk]. *)
Fixpoint fragments (calls : list json) : list jsstring :=
  match calls with
  | [] => []
  | JString s :: rest => s :: fragments rest
  | _ :: rest => fragments rest
  end.

(** The text that a sequence of terminal outputs shows through
    [process.stdout.write(chunk)]. *)
Fixpoint written (out : list output) : jsstring :=
  match out with
  | [] => []
  | Write s :: rest => s ++ written rest
  | _ :: rest => written rest
  end.

(** The command word that the [switch] of the loop compares. *)
Definition commandName (input : jsstring) : jsstring :=
  toLowerCase (hd [] (split 32 (slice 1 (trim input)))).

(** The line is accepted by the prompt and dispatched to the slash command
    [name]. *)
Definition dispatches (name input : jsstring) : bool :=
  validate input && startsWith SLASH (trim input)
  && str_eqb (commandName input) name.

(** The line is accepted by the prompt and is a chat turn. *)
Definition isChatTurn (input : jsstring) : bool :=
  validate input && negb (startsWith SLASH (trim input)).

(** The cumulative length of the contents of a transcript. *)
Definition totalLength (msgs : list ChatMessage) : nat :=
  fold_right (fun msg n => (length (content msg) + n)%nat) 0%nat msgs.

(** [n] divided by 4 and rounded up. *)
Definition ceilDiv4 (n : Z) : Z := ((n + 3) / 4)%Z.

(** A string without leading or trailing whitespace. *)
Definition stripped (s : jsstring) : Prop :=
  (forall c r, s = c :: r -> is_space c = false) /\
  (forall c r, s = r ++ [c] -> is_space c = false).

Definition userMessage (text : jsstring) : ChatMessage :=
  {| role := user; content := text |}.

Definition assistantMessage (text : jsstring) : ChatMessage :=
  {| role := assistant; content := text |}.

(* ================================================================== *)
(** * Concrete streams and sessions *)

(** An event-data line that carries the fragment [text], without and with
    its line feed. *)
Definition deltaRecord (text : string) : jsstring :=
  wire "data: {'choices':[{'delta':{'content':'" ++ lit text ++ wire "'}}]}".

Definition deltaLine (text : string) : jsstring := deltaRecord text ++ [10].

(** A stream that says [Hello], cut inside the JSON payload. *)
Definition helloFirst : jsstring :=
  wire "data: {'choices':[{'delta':{'content':'Hel".
Definition helloSecond : jsstring :=
  wire "lo'}}]}$$data: [DONE]$".

(** The same text in two events, cut at line boundaries. *)
Definition helloByLines : list jsstring :=
  [deltaLine "Hel"; deltaLine "lo" ++ wire "$"; wire "data: [DONE]$"].

Definition demoConfig : Config :=
  {| apiKey := Some (lit "ci_0123456789abcdefghij");
     defaultProvider := None; defaultModel := None;
     streamResponse := Some true |}.

Definition terseOptions : Options :=
  {| opt_provider := None; opt_model := None;
     opt_system := Some (lit "You are terse."); opt_stream := None |}.

Definition plainOptions : Options :=
  {| opt_provider := None; opt_model := None;
     opt_system := None; opt_stream := None |}.

Definition streams (chunks : list jsstring) (fin : stream_end) : server :=
  {| chat_answer := ChatRejected (lit "not a streaming request");
     stream_answer := Streaming chunks fin |}.

(** A stream that delivers one fragment and then breaks. *)
Definition breaksAfterPar : server :=
  streams [deltaLine "Par"] (StreamError (lit "socket hang up")).

Definition saysHello : server := streams helloByLines StreamEnd.

(** A session with a system prompt after two exchanged turns. *)
Definition twoTurns : session :=
  run Json.parse demoConfig terseOptions (start demoConfig terseOptions)
      [(lit "hi", saysHello); (lit "again", saysHello)].

(* ================================================================== *)
(** * [TerminalUtils]: separators, boxes and line wrapping *)

Module Terminal.

Definition HLINE : jsstring := [9472].
Definition SPACE : jsstring := [32].

(** [a || b] where [a] is a number or [undefined]. *)
Definition num_or (a : option Z) (b : Z) : Z :=
  match a with
  | Some n => if (n =? 0)%Z then b else n
  | None => b
  end.

(** [stdout.columns || 80]. *)
Definition getTerminalWidth (columns : option Z) : Z := num_or columns 80.

(** [s.repeat(count)] for an integer [count]; [None] is the [RangeError]
    of a negative count. *)
Definition repeat (s : jsstring) (count : Z) : option jsstring :=
  if (count <? 0)%Z then None
  else Some (concat (List.repeat s (Z.to_nat count))).

(** [createSeparator(char, width)]; the caller's [char] is given, the
    default being [HLINE]. *)
Definition createSeparator (columns : option Z) (char : jsstring)
    (width : option Z) : option jsstring :=
  let terminalWidth := num_or width (getTerminalWidth columns) in
  let actualWidth := Z.min (terminalWidth - 4) 80 in
  repeat char actualWidth.

(** [formatChatBox(title, width)]: the top, title and bottom lines. *)
Definition formatChatBox (columns : option Z) (title : jsstring)
    (width : option Z) : option (list jsstring) :=
  let terminalWidth := num_or width (getTerminalWidth columns) in
  let boxWidth := Z.min (terminalWidth - 4) 50 in
  let len := Z.of_nat (length title) in
  let padding := Z.max 0 ((boxWidth - len - 2) / 2) in
  match repeat HLINE (boxWidth - 2) with
  | None => None
  | Some bar =>
      let topLine := [9484] ++ bar ++ [9488] in
      match repeat SPACE padding with
      | None => None
      | Some before =>
          match repeat SPACE (boxWidth - 2 - padding - len) with
          | None => None
          | Some after =>
              let titleLine :=
                [9474] ++ before ++ title ++ after ++ [9474] in
              let bottomLine := [9492] ++ bar ++ [9496] in
              Some [topLine; titleLine; bottomLine]
          end
      end
  end.

(** The [for (const word of words)] loop of [wrapText] and the push after
    it. *)
Fixpoint wrapWords (maxWidth : Z) (words : list jsstring)
    (lines : list jsstring) (currentLine : jsstring) : list jsstring :=
  match words with
  | [] =>
      match currentLine with
      | [] => lines
      | _ :: _ => lines ++ [currentLine]
      end
  | word :: rest =>
      if (Z.of_nat (length currentLine) + Z.of_nat (length word) + 1
          <=? maxWidth)%Z
      then
        wrapWords maxWidth rest lines
          (currentLine
           ++ match currentLine with [] => [] | _ :: _ => SPACE end ++ word)
      else
        wrapWords maxWidth rest
          match currentLine with
          | [] => lines
          | _ :: _ => lines ++ [currentLine]
          end
          word
  end.

(** [wrapText(text, width)]. *)
Definition wrapText (columns : option Z) (text : jsstring)
    (width : option Z) : list jsstring :=
  let maxWidth := num_or width (Z.min (getTerminalWidth columns - 8) 100) in
  wrapWords maxWidth (split 32 text) [] [].

End Terminal.

(* ================================================================== *)
(** * [ConfigManager] and the [config] command *)

Module Settings.

(** A Number that is an integer or an infinity; [Finite 0] stands for [0]
    and [-0] alike, which are stored alike. *)
Inductive jsint :=
| Finite (n : Z)
| Infinite (negative : bool).

(** [ChatInstanceConfig]: every key is optional. *)
Record ChatInstanceConfig := {
  apiKey : option jsstring;
  apiUrl : option jsstring;
  defaultProvider : option jsstring;
  defaultModel : option jsstring;
  maxTokens : option jsint;
  temperature : option Q;
  streamResponse : option bool;
  saveHistory : option bool;
  historyLimit : option jsint;
  debug : option bool
}.

(** The keys the chat command reads. *)
Definition forChat (c : ChatInstanceConfig) : Chat.Config :=
  {| Chat.apiKey := apiKey c;
     Chat.defaultProvider := defaultProvider c;
     Chat.defaultModel := defaultModel c;
     Chat.streamResponse := streamResponse c |}.

(** [set('apiKey', value)] and [delete('apiKey')]. *)
Definition withApiKey (value : option jsstring) (c : ChatInstanceConfig)
  : ChatInstanceConfig :=
  {| apiKey := value; apiUrl := apiUrl c;
     defaultProvider := defaultProvider c; defaultModel := defaultModel c;
     maxTokens := maxTokens c; temperature := temperature c;
     streamResponse := streamResponse c; saveHistory := saveHistory c;
     historyLimit := historyLimit c; debug := debug c |}.

Definition CI : jsstring := Eval cbv in lit "ci_".
Definition STARS : jsstring := Eval cbv in lit "***".

Definition is_alnum (c : N) : bool :=
  ((97 <=? c) && (c <=? 122)) || ((65 <=? c) && (c <=? 90))
  || ((48 <=? c) && (c <=? 57)).

(** [validateApiKey]: the test of the regular expression that asks for
    [ci_] at the start and then letters and digits, at least 20, up to the
    end. *)
Definition validateApiKey (key : jsstring) : bool :=
  startsWith CI key && forallb is_alnum (slice 3 key)
  && (20 <=? length (slice 3 key))%nat.

(** [s.slice(-n)]: the last [n] code units, or all of [s]. *)
Definition sliceLast (n : nat) (s : jsstring) : jsstring :=
  skipn (length s - n) s.

(** The [apiKey] entry of [getDisplayConfig()]. *)
Definition displayApiKey (c : ChatInstanceConfig) : option jsstring :=
  match apiKey c with
  | Some (u :: r) => Some (STARS ++ sliceLast 4 (u :: r))
  | _ => None
  end.

(** The keys of [validKeys]. *)
Inductive ConfigKey :=
| KApiKey | KApiUrl | KDefaultProvider | KDefaultModel | KMaxTokens
| KTemperature | KStreamResponse | KSaveHistory | KHistoryLimit | KDebug.

Definition keyName (k : ConfigKey) : jsstring :=
  Eval cbv in
    match k with
    | KApiKey => lit "apiKey"
    | KApiUrl => lit "apiUrl"
    | KDefaultProvider => lit "defaultProvider"
    | KDefaultModel => lit "defaultModel"
    | KMaxTokens => lit "maxTokens"
    | KTemperature => lit "temperature"
    | KStreamResponse => lit "streamResponse"
    | KSaveHistory => lit "saveHistory"
    | KHistoryLimit => lit "historyLimit"
    | KDebug => lit "debug"
    end.

Definition validKeys : list ConfigKey :=
  [KApiKey; KApiUrl; KDefaultProvider; KDefaultModel; KMaxTokens;
   KTemperature; KStreamResponse; KSaveHistory; KHistoryLimit; KDebug].

(** The key of [validKeys] that [key] names, if [validKeys.includes(key)]. *)
Definition findKey (key : jsstring) : option ConfigKey :=
  find (fun k => str_eqb (keyName k) key) validKeys.

(** The value of a digit in a radix. *)
Definition digitValue (radix c : N) : option N :=
  match hex_digit c with
  | Some d => if d <? radix then Some d else None
  | None => None
  end.

(** The number written by the longest prefix of digits of [s], after the
    digits that gave [acc]; [None] when there is no digit at all. *)
Fixpoint leadingNumber (radix : N) (s : jsstring) (acc : option N)
  : option N :=
  match s with
  | [] => acc
  | c :: r =>
      match digitValue radix c with
      | Some d =>
          leadingNumber radix r
            (Some (match acc with Some a => a * radix + d | None => d end))
      | None => acc
      end
  end.

(** The sign that [parseInt] strips: [-] or [+]. *)
Definition signOf (s : jsstring) : bool * jsstring :=
  match s with
  | c :: r => if c =? 45 then (true, r)
              else if c =? 43 then (false, r) else (false, s)
  | [] => (false, s)
  end.

(** The radix of [parseInt] without a radix argument: 16 after [0x] or
    [0X], which is stripped, and 10 otherwise. *)
Definition radixOf (s : jsstring) : N * jsstring :=
  match s with
  | z :: x :: r =>
      if (z =? 48) && ((x =? 120) || (x =? 88)) then (16, r) else (10, s)
  | _ => (10, s)
  end.

(** The Number for a natural number: the double nearest to it, ties to
    even; [None] is [Infinity].  A number of at most 53 bits is a double
    itself.  A longer one is cut to its leading 53 bits [q], which are
    rounded up when the [k] bits cut off are more than half a unit of [q],
    or just half and [q] is odd; from 2^1024 on the result is [Infinity]. *)
Definition toDouble (n : N) : option N :=
  let bits := N.size n in
  if bits <=? 53 then Some n
  else
    let k := bits - 53 in
    let q := N.shiftr n k in
    let r := n - N.shiftl q k in
    let half := N.shiftl 1 (k - 1) in
    let q' := if (half <? r) || ((r =? half) && N.odd q) then q + 1 else q in
    let v := N.shiftl q' k in
    if N.size v <=? 1024 then Some v else None.

(** [parseInt(s)] without a radix; [None] is [NaN].  The result is a
    Number: the integer read, rounded to a double.  (The language lets an
    engine approximate a decimal integer of more than 20 digits; the engine
    of Node rounds it to the nearest double, as here.) *)
Definition parseInt (s : jsstring) : option jsint :=
  let (negative, s2) := signOf (trimStart s) in
  let (radix, s3) := radixOf s2 in
  match leadingNumber radix s3 None with
  | None => None
  | Some n =>
      Some match toDouble n with
           | Some v => Finite (if negative then (- Z.of_N v)%Z else Z.of_N v)
           | None => Infinite negative
           end
  end.

(** What [config set] stores under a key. *)
Inductive TypedValue :=
| Text (s : jsstring)
| Whole (n : jsint)
| Real (x : Q)
| Flag (b : bool).

(** Why [config set] exits with status 1. *)
Inductive SetError :=
| Usage
| UnknownKey (key : jsstring)
| NotANumber (k : ConfigKey)
| BadTemperature.

Definition TRUE : jsstring := Eval cbv in lit "true".

Section ConfigSet.

(** [parseFloat]; [None] is [NaN]. *)
Variable parseFloat : jsstring -> option Q.

(** The type conversion of [config set]. *)
Definition typedValue (k : ConfigKey) (value : jsstring)
  : SetError + TypedValue :=
  match k with
  | KMaxTokens | KHistoryLimit =>
      match parseInt value with
      | None => inl (NotANumber k)
      | Some n => inr (Whole n)
      end
  | KTemperature =>
      match parseFloat value with
      | None => inl BadTemperature
      | Some x =>
          if (Qle_bool 0 x && Qle_bool x 2)%bool then inr (Real x)
          else inl BadTemperature
      end
  | KStreamResponse | KSaveHistory | KDebug =>
      inr (Flag (str_eqb (toLowerCase value) TRUE))
  | _ => inr (Text value)
  end.

(** [config.set(key, typedValue)], for a value of the type the conversion
    gives for the key. *)
Definition store (k : ConfigKey) (v : TypedValue) (c : ChatInstanceConfig)
  : ChatInstanceConfig :=
  match k, v with
  | KApiKey, Text s => withApiKey (Some s) c
  | KApiUrl, Text s =>
      {| apiKey := apiKey c; apiUrl := Some s;
         defaultProvider := defaultProvider c; defaultModel := defaultModel c;
         maxTokens := maxTokens c; temperature := temperature c;
         streamResponse := streamResponse c; saveHistory := saveHistory c;
         historyLimit := historyLimit c; debug := debug c |}
  | KDefaultProvider, Text s =>
      {| apiKey := apiKey c; apiUrl := apiUrl c;
         defaultProvider := Some s; defaultModel := defaultModel c;
         maxTokens := maxTokens c; temperature := temperature c;
         streamResponse := streamResponse c; saveHistory := saveHistory c;
         historyLimit := historyLimit c; debug := debug c |}
  | KDefaultModel, Text s =>
      {| apiKey := apiKey c; apiUrl := apiUrl c;
         defaultProvider := defaultProvider c; defaultModel := Some s;
         maxTokens := maxTokens c; temperature := temperature c;
         streamResponse := streamResponse c; saveHistory := saveHistory c;
         historyLimit := historyLimit c; debug := debug c |}
  | KMaxTokens, Whole n =>
      {| apiKey := apiKey c; apiUrl := apiUrl c;
         defaultProvider := defaultProvider c; defaultModel := defaultModel c;
         maxTokens := Some n; temperature := temperature c;
         streamResponse := streamResponse c; saveHistory := saveHistory c;
         historyLimit := historyLimit c; debug := debug c |}
  | KTemperature, Real x =>
      {| apiKey := apiKey c; apiUrl := apiUrl c;
         defaultProvider := defaultProvider c; defaultModel := defaultModel c;
         maxTokens := maxTokens c; temperature := Some x;
         streamResponse := streamResponse c; saveHistory := saveHistory c;
         historyLimit := historyLimit c; debug := debug c |}
  | KStreamResponse, Flag b =>
      {| apiKey := apiKey c; apiUrl := apiUrl c;
         defaultProvider := defaultProvider c; defaultModel := defaultModel c;
         maxTokens := maxTokens c; temperature := temperature c;
         streamResponse := Some b; saveHistory := saveHistory c;
         historyLimit := historyLimit c; debug := debug c |}
  | KSaveHistory, Flag b =>
      {| apiKey := apiKey c; apiUrl := apiUrl c;
         defaultProvider := defaultProvider c; defaultModel := defaultModel c;
         maxTokens := maxTokens c; temperature := temperature c;
         streamResponse := streamResponse c; saveHistory := Some b;
         historyLimit := historyLimit c; debug := debug c |}
  | KHistoryLimit, Whole n =>
      {| apiKey := apiKey c; apiUrl := apiUrl c;
         defaultProvider := defaultProvider c; defaultModel := defaultModel c;
         maxTokens := maxTokens c; temperature := temperature c;
         streamResponse := streamResponse c; saveHistory := saveHistory c;
         historyLimit := Some n; debug := debug c |}
  | KDebug, Flag b =>
      {| apiKey := apiKey c; apiUrl := apiUrl c;
         defaultProvider := defaultProvider c; defaultModel := defaultModel c;
         maxTokens := maxTokens c; temperature := temperature c;
         streamResponse := streamResponse c; saveHistory := saveHistory c;
         historyLimit := historyLimit c; debug := Some b |}
  | _, _ => c
  end.

(** [configCommand('set', key, value)]: the configuration afterwards, or
    why the process exits with status 1 and the configuration as it was. *)
Definition configSet (key value : option jsstring) (c : ChatInstanceConfig)
  : SetError + ChatInstanceConfig :=
  match key, value with
  | Some (u :: r), Some v =>
      match findKey (u :: r) with
      | None => inl (UnknownKey (u :: r))
      | Some k =>
          match typedValue k v with
          | inl e => inl e
          | inr t => inr (store k t c)
          end
      end
  | _, _ => inl Usage
  end.

End ConfigSet.

End Settings.

(* ================================================================== *)
(** * The [login] command *)

Module Auth.

Import Settings.

Record ApiKeyInfo := { key_id : jsstring; key_name : jsstring }.

(** The fields of [User] that the command reads. *)
Record User := {
  user_name : jsstring;
  user_email : jsstring;
  user_apiKeys : list ApiKeyInfo
}.

(** What [api.getCurrentUser()] does. *)
Inductive user_reply :=
| UserRejected (message : jsstring)
| UserFound (u : User).

(** What the command prints; a line stands for its text. *)
Inductive line :=
| KeyRequired
| InvalidFormat
| Validating
| LoginSuccessful
| LoggedInAs (name email : jsstring)
| MoreProjects
| AvailableKeys
| KeyLine (current : bool) (name id : jsstring)
| LoginFailed (message : jsstring).

(** How the command ends: it returns, the process exits, or it is still
    waiting at a prompt that has accepted none of the lines typed. *)
Inductive ending :=
| Returned
| Exited (status : Z)
| AtPrompt.

Record outcome := {
  config : ChatInstanceConfig;
  shown : list line;
  ended : ending
}.

(** [validate] of the password prompt: [true] when the line is accepted. *)
Definition promptAccepts (input : jsstring) : bool :=
  match trim input with
  | [] => false
  | _ :: _ => validateApiKey (trim input)
  end.

(** [s.endsWith(suffix)]. *)
Definition endsWith (suffix s : jsstring) : bool :=
  startsWith (rev suffix) (rev s).

(** The lines of the [Available API keys] list. *)
Definition keyLines (apiKey : jsstring) (keys : list ApiKeyInfo)
  : list line :=
  match keys with
  | [] => []
  | _ :: _ =>
      AvailableKeys ::
      map (fun k => KeyLine (endsWith (sliceLast 4 (key_id k)) apiKey)
                            (key_name k) (key_id k))
          keys
  end.

(** [loginCommand(options)] after the key has been obtained. *)
Definition loginWith (apiKey : jsstring) (reply : user_reply)
    (c : ChatInstanceConfig) : outcome :=
  match apiKey with
  | [] => {| config := c; shown := [KeyRequired]; ended := Exited 1 |}
  | _ :: _ =>
      if validateApiKey apiKey then
        match reply with
        | UserFound u =>
            {| config := withApiKey (Some apiKey) c;
               shown := [Validating; LoginSuccessful;
                         LoggedInAs (user_name u) (user_email u);
                         MoreProjects]
                        ++ keyLines apiKey (user_apiKeys u);
               ended := Returned |}
        | UserRejected m =>
            {| config := withApiKey None c;
               shown := [Validating; LoginFailed m];
               ended := Exited 1 |}
        end
      else {| config := c; shown := [InvalidFormat]; ended := Exited 1 |}
  end.

(** [loginCommand(options)]: [key] is [options.key], [attempts] the lines
    typed at the prompt, which asks again until it accepts one. *)
Definition loginCommand (key : option jsstring) (attempts : list jsstring)
    (reply : user_reply) (c : ChatInstanceConfig) : outcome :=
  match key with
  | Some (u :: r) => loginWith (u :: r) reply c
  | _ =>
      match find promptAccepts attempts with
      | Some input => loginWith (trim input) reply c
      | None => {| config := c; shown := []; ended := AtPrompt |}
      end
  end.

End Auth.

(* ================================================================== *)
(** * [askCommand]: one question *)

Module Ask.

Definition PLAIN : jsstring := Eval cbv in lit "plain".
Definition JSON : jsstring := Eval cbv in lit "json".

(** What [askCommand] prints: what [chatCommand]'s callback writes, and
    lines of its own; a line stands for its text. *)
Inductive line :=
| Term (o : Chat.output)
| Empty
| Heading (provider model : jsstring)
| Dashes
| JsonStream (provider model question response : jsstring)
| JsonReply (question response : jsstring)
| Content (text : jsstring)
| TokensLine (n : N)
| PleaseLogin
| Failed (message : jsstring).

Record outcome := {
  request : option ChatRequest;
  shown : list line;
  status : option Z
}.

Section AskCommand.

Variable JSON_parse : jsstring -> option json.
Variable config : Settings.ChatInstanceConfig.
Variable options : Options.

(** [options.format], the command line's default being [plain]. *)
Variable format : option jsstring.

Definition formatIs (name : jsstring) : bool :=
  match format with
  | Some f => str_eqb f name
  | None => false
  end.

(** [askCommand(question, options)].  After a streaming call has resolved
    the command returns and the process lives until the stream is over: what
    the still attached listener writes until then comes last. *)
Definition askCommand (question : jsstring) (srv : server) : outcome :=
  let cfg := Settings.forChat config in
  if negb (truthy_str (Settings.apiKey config)) then
    {| request := None; shown := [PleaseLogin]; status := Some 1%Z |}
  else
    let msgs := seed options ++ [{| role := user; content := question |}] in
    if useStream cfg options then
      let rq := {| req_provider := provider cfg options;
                   req_model := model cfg options;
                   req_messages := msgs; req_stream := Some true |} in
      let opening :=
        if formatIs PLAIN then []
        else [Empty; Heading (provider cfg options) (model cfg options);
              Dashes] in
      let (calls, outcome) := streamChat JSON_parse (stream_answer srv) in
      let (writes, response) := aggregate calls in
      let late := fst (aggregate (streamLate JSON_parse (stream_answer srv))) in
      match outcome with
      | Rejected m =>
          {| request := Some rq;
             shown := opening ++ map Term writes ++ [Failed m];
             status := Some 1%Z |}
      | Resolved =>
          {| request := Some rq;
             shown := opening ++ map Term writes ++ [Empty; Empty]
                      ++ (if formatIs JSON
                          then [JsonStream (provider cfg options)
                                           (model cfg options)
                                           question response]
                          else [])
                      ++ map Term late;
             status := None |}
      end
    else
      let rq := {| req_provider := provider cfg options;
                   req_model := model cfg options;
                   req_messages := msgs; req_stream := None |} in
      match chat_answer srv with
      | ChatRejected m =>
          {| request := Some rq;
             shown := [Term SpinnerStart; Term SpinnerStop; Failed m];
             status := Some 1%Z |}
      | ChatReplied response =>
          let printed :=
            if formatIs JSON then []
            else [Empty; Heading (provider cfg options) (model cfg options);
                  Dashes; Empty] in
          match choices response with
          | [] =>
              {| request := Some rq;
                 shown := [Term SpinnerStart; Term SpinnerStop] ++ printed
                          ++ [Term SpinnerStop; Failed NO_MESSAGE];
                 status := Some 1%Z |}
          | text :: _ =>
              {| request := Some rq;
                 shown := [Term SpinnerStart; Term SpinnerStop]
                          ++ (if formatIs JSON then [JsonReply question text]
                              else printed ++ [Content text; Empty]
                                   ++ match Settings.debug config with
                                      | Some true =>
                                          [TokensLine (total_tokens response);
                                           Empty]
                                      | _ => []
                                      end);
                 status := None |}
          end
      end.

End AskCommand.

End Ask.

(* ================================================================== *)
(** * [chatCommand] on a terminal *)

Definition HEADER_TITLE : jsstring :=
  Eval cbv in lit "ChatInstance CLI v1.0.0".

(** The state of a chat that stopped before its loop, after printing
    [out]: the outer [catch] reports [Chat failed] and the process exits
    with status 1. *)
Definition stopped (out : list output) : session :=
  {| messages := []; terminal := out ++ [LogError ChatFailed];
     sent := []; alive := false |}.

(** [chatCommand] up to its loop, on a terminal of [columns] columns: after
    the key check the header is drawn, and [formatChatBox] or
    [createSeparator] may throw before the loop is entered.  When they do
    not, the state is [Chat.start]; the same calls then succeed inside the
    loop as well ([/clear] draws the same box, [/help] a box with a shorter
    title, the separators are those of the header or of a fixed width), as
    long as the terminal keeps its width. *)
Definition chatEntry (columns : option Z) (config : Config)
    (options : Options) : session :=
  if truthy_str (apiKey config) then
    match Terminal.formatChatBox columns HEADER_TITLE None with
    | None => stopped [ClearScreen]
    | Some _ =>
        match Terminal.createSeparator columns Terminal.HLINE None with
        | None =>
            stopped [ClearScreen; Log Header;
                     Log (ConnectedTo (provider config options)
                                      (model config options));
                     Log HelpHint]
        | Some _ => start config options
        end
    end
  else start config options.

(** [chatCommand(options)] on a terminal of [columns] columns, driven by the
    lines submitted at its prompt. *)
Definition chatCommandOn (columns : option Z)
    (JSON_parse : jsstring -> option json) (config : Config)
    (options : Options) (rounds : list (jsstring * server)) : session :=
  run JSON_parse config options (chatEntry columns config options) rounds.

(* ================================================================== *)
(** * Vocabulary of the further properties *)

(** What a line submitted at the prompt of the chat is: refused by the
    prompt, the command that leaves, the command that clears, another line
    that starts with a slash, or a question, which is the line trimmed. *)
Inductive lineKind :=
| Refused
| Leaves
| Clears
| Local
| Asks (text : jsstring).

Definition lineKindOf (input : jsstring) : lineKind :=
  if negb (validate input) then Refused
  else if startsWith SLASH (trim input) then
    if str_eqb (commandName input) EXIT || str_eqb (commandName input) QUIT
    then Leaves
    else if str_eqb (commandName input) CLEAR then Clears
    else Local
  else Asks (trim input).

(** One exchange of a transcript: the user's text and, when the call
    succeeded, the reply. *)
Definition render (turn : jsstring * option jsstring) : list ChatMessage :=
  match turn with
  | (text, Some reply) => [userMessage text; assistantMessage reply]
  | (text, None) => [userMessage text]
  end.

(** The exchanges of a session after the lines of [rounds], counted from
    its start or its last clearing: for each question, its text and the
    reply [replyOf] finds in the answer of the service, if any.  [turns] are
    the exchanges so far. *)
Fixpoint exchanges (replyOf : server -> option jsstring)
    (rounds : list (jsstring * server))
    (turns : list (jsstring * option jsstring))
  : list (jsstring * option jsstring) :=
  match rounds with
  | [] => turns
  | (input, srv) :: rest =>
      match lineKindOf input with
      | Refused | Local => exchanges replyOf rest turns
      | Leaves => turns
      | Clears => exchanges replyOf rest []
      | Asks text => exchanges replyOf rest (turns ++ [(text, replyOf srv)])
      end
  end.


(** The contexts of the questions among the lines of [rounds], one for
    each, in order: the system message, the exchanges before the question
    (since the start or the last clearing), and the question. *)
Fixpoint contexts (replyOf : server -> option jsstring)
    (opening : list ChatMessage) (rounds : list (jsstring * server))
    (turns : list (jsstring * option jsstring)) : list (list ChatMessage) :=
  match rounds with
  | [] => []
  | (input, srv) :: rest =>
      match lineKindOf input with
      | Refused | Local => contexts replyOf opening rest turns
      | Leaves => []
      | Clears => contexts replyOf opening rest []
      | Asks text =>
          (opening ++ flat_map render turns ++ [userMessage text])
          :: contexts replyOf opening rest (turns ++ [(text, replyOf srv)])
      end
  end.

(** The request that a session sends for a context. *)
Definition requestFor (config : Config) (options : Options)
    (context : list ChatMessage) : ChatRequest :=
  {| req_provider := provider config options;
     req_model := model config options;
     req_messages := context;
     req_stream := if useStream config options then Some true else None |}.

(** The words of a text: what stands between its spaces, the empty words of
    doubled spaces left out. *)
Definition nonemptyWords (text : jsstring) : list jsstring :=
  filter (fun w => match w with [] => false | _ :: _ => true end)
         (split 32 text).

(** The lines of a text, each closed by [eol]. *)
Definition closeLines (eol : jsstring) (lines : list jsstring) : jsstring :=
  concat (map (fun l => l ++ eol) lines).

(** The width of the chat box on a terminal. *)
Definition boxWidthOf (columns width : option Z) : Z :=
  Z.min (Terminal.num_or width (Terminal.getTerminalWidth columns) - 4) 50.


Definition demoSettings : Settings.ChatInstanceConfig :=
  {| Settings.apiKey := Some (lit "ci_0123456789abcdefghij");
     Settings.apiUrl := None;
     Settings.defaultProvider := None; Settings.defaultModel := None;
     Settings.maxTokens := Some (Settings.Finite 2000);
     Settings.temperature := None;
     Settings.streamResponse := Some true; Settings.saveHistory := None;
     Settings.historyLimit := None; Settings.debug := None |}.

Definition otherKey : jsstring := lit "ci_ABCDEFGHIJKLMNOPQRST0000".

Definition paddedKey : jsstring :=
  [32] ++ lit "ci_0123456789abcdefghij" ++ [10].

Definition someUser : Auth.User :=
  {| Auth.user_name := lit "Ada"; Auth.user_email := lit "ada@example.org";
     Auth.user_apiKeys := [] |}.

(** The lines of a stream, as a server that ends them with carriage return
    and line feed sends them. *)
Definition helloRecords : list jsstring :=
  [deltaRecord "Hel"; []; deltaRecord "lo"; []; lit "data: [DONE]"].

(** The lines of a session: a question whose stream breaks, a clearing,
    a question that is answered, a local command, and a question whose
    stream breaks again. *)
Definition sampleRounds : list (jsstring * server) :=
  [(lit "Tell me", breaksAfterPar); (lit "/clear", saysHello);
   (lit " hi ", saysHello); (lit "/tokens", saysHello);
   (lit "more", breaksAfterPar)].

(** The session [twoTurns] after [/clear]. *)
Definition twoTurnsCleared : session :=
  iteration Json.parse demoConfig terseOptions twoTurns (lit "/clear")
            saysHello.


(* ================================================================== *)
(** * Strings *)

Section StringFacts.

Lemma str_eqb_refl (a : jsstring) : str_eqb a a = true.
Proof.
  induction a as [|x a IH]; simpl; [reflexivity|].
  now rewrite N.eqb_refl, IH.
Qed.

Lemma str_eqb_eq (a b : jsstring) : str_eqb a b = true <-> a = b.
Proof.
  split.
  - revert b; induction a as [|x a IH]; intros [|y b]; simpl;
      try discriminate; [reflexivity|].
    intros H. apply andb_true_iff in H as [Hx Hr].
    apply N.eqb_eq in Hx. f_equal; auto.
  - intros ->. apply str_eqb_refl.
Qed.

Lemma str_eqb_neq (a b : jsstring) : str_eqb a b = false <-> a <> b.
Proof.
  destruct (str_eqb a b) eqn:E.
  - apply str_eqb_eq in E. split; [discriminate | contradiction].
  - split; [|reflexivity]. intros _ H. apply str_eqb_eq in H. congruence.
Qed.

Lemma startsWith_app (p s : jsstring) : startsWith p (p ++ s) = true.
Proof.
  induction p as [|x p IH]; simpl; [reflexivity|].
  now rewrite N.eqb_refl.
Qed.

Lemma split_nonempty (sep : N) (s : jsstring) : split sep s <> [].
Proof.
  destruct s as [|c r]; simpl; [discriminate|].
  destruct (c =? sep); [discriminate|].
  destruct (split sep r); discriminate.
Qed.

(** Splitting distributes over a separator. *)
Lemma split_app_sep (sep : N) (a b : jsstring) :
  split sep (a ++ sep :: b) = split sep a ++ split sep b.
Proof.
  induction a as [|c a IH]; simpl.
  - now rewrite N.eqb_refl.
  - destruct (c =? sep); [now rewrite IH|].
    rewrite IH. destruct (split sep a) eqn:E; [|reflexivity].
    now apply split_nonempty in E.
Qed.

Lemma split_no_sep (sep : N) (s : jsstring) :
  ~ In sep s -> split sep s = [s].
Proof.
  induction s as [|c s IH]; simpl; intros H; [reflexivity|].
  destruct (N.eqb_spec c sep) as [->|_]; [exfalso; auto|].
  rewrite IH; auto.
Qed.

Lemma trimStart_spaces (ws s : jsstring) :
  forallb is_space ws = true -> trimStart (ws ++ s) = trimStart s.
Proof.
  induction ws as [|c ws IH]; simpl; intros H; [reflexivity|].
  apply andb_true_iff in H as [-> H]. auto.
Qed.

Lemma trimStart_keeps (c : N) (r : jsstring) :
  is_space c = false -> trimStart (c :: r) = c :: r.
Proof. intros H; simpl; now rewrite H. Qed.

(** [trimStart] removes a run of whitespace and nothing else. *)
Lemma trimStart_decompose (s : jsstring) :
  exists ws, s = ws ++ trimStart s /\ forallb is_space ws = true.
Proof.
  induction s as [|c s [ws [E H]]]; simpl.
  - now exists [].
  - destruct (is_space c) eqn:Ec.
    + exists (c :: ws); simpl. rewrite Ec, H. now rewrite <- E.
    + now exists [].
Qed.

Lemma trimStart_head (s : jsstring) (c : N) (r : jsstring) :
  trimStart s = c :: r -> is_space c = false.
Proof.
  induction s as [|x s IH]; simpl; [discriminate|].
  destruct (is_space x) eqn:Ex; [exact IH|].
  now intros [= <- _].
Qed.

Lemma trimStart_app_keep (l : jsstring) (c : N) (m : jsstring) :
  is_space c = false -> trimStart (l ++ c :: m) = trimStart l ++ c :: m.
Proof.
  intros Hc. induction l as [|x l IH]; simpl.
  - now rewrite Hc.
  - destruct (is_space x); [exact IH | reflexivity].
Qed.

Lemma trimEnd_cons_keep (c : N) (r : jsstring) :
  is_space c = false -> trimEnd (c :: r) = c :: trimEnd r.
Proof.
  intros Hc. unfold trimEnd. simpl.
  rewrite trimStart_app_keep by assumption.
  now rewrite rev_app_distr.
Qed.

Lemma trimEnd_decompose (s : jsstring) :
  exists ws, s = trimEnd s ++ ws /\ forallb is_space ws = true.
Proof.
  destruct (trimStart_decompose (rev s)) as [ws [E H]].
  exists (rev ws). split.
  - unfold trimEnd. rewrite <- rev_app_distr, <- E. now rewrite rev_involutive.
  - rewrite forallb_forall in *. intros x Hx. apply H. now apply in_rev.
Qed.

Lemma trimEnd_last (s r : jsstring) (c : N) :
  trimEnd s = r ++ [c] -> is_space c = false.
Proof.
  unfold trimEnd. intros H.
  apply (f_equal (@rev N)) in H.
  rewrite rev_involutive, rev_app_distr in H. simpl in H.
  now apply trimStart_head in H.
Qed.

Lemma trimEnd_spaces (s ws : jsstring) :
  forallb is_space ws = true -> trimEnd (s ++ ws) = trimEnd s.
Proof.
  intros H. unfold trimEnd. rewrite rev_app_distr.
  rewrite trimStart_spaces; [reflexivity|].
  rewrite forallb_forall in *. intros x Hx. apply H. now apply in_rev.
Qed.

(** [trim] removes a run of whitespace at each end and nothing else. *)
Lemma trim_decompose (s : jsstring) :
  exists ws1 ws2, s = ws1 ++ trim s ++ ws2 /\
                  forallb is_space ws1 = true /\ forallb is_space ws2 = true.
Proof.
  destruct (trimStart_decompose s) as [ws1 [E1 H1]].
  destruct (trimEnd_decompose (trimStart s)) as [ws2 [E2 H2]].
  exists ws1, ws2. unfold trim. now rewrite <- E2, <- E1.
Qed.

Lemma trim_stripped (s : jsstring) : stripped (trim s).
Proof.
  split; intros c r E.
  - unfold trim in E. destruct (trimStart s) as [|x t] eqn:Et.
    + discriminate.
    + pose proof (trimStart_head _ _ _ Et) as Hx.
      rewrite trimEnd_cons_keep in E by assumption.
      now injection E as <- _.
  - unfold trim in E. now apply trimEnd_last in E.
Qed.

Lemma trimEnd_fix (s : jsstring) :
  (forall c r, s = r ++ [c] -> is_space c = false) -> trimEnd s = s.
Proof.
  intros H. unfold trimEnd.
  destruct (rev s) as [|c t] eqn:E.
  - apply (f_equal (@rev N)) in E. rewrite rev_involutive in E. now subst.
  - assert (Hs : s = rev t ++ [c]).
    { apply (f_equal (@rev N)) in E. now rewrite rev_involutive in E. }
    rewrite trimStart_keeps by (eapply H; eassumption).
    now rewrite Hs.
Qed.

Lemma trim_fix (s : jsstring) : stripped s -> trim s = s.
Proof.
  intros [Hh Hl]. unfold trim.
  destruct s as [|c r]; [reflexivity|].
  rewrite trimStart_keeps by (eapply Hh; reflexivity).
  now apply trimEnd_fix.
Qed.

Lemma trim_idempotent (s : jsstring) : trim (trim s) = trim s.
Proof. apply trim_fix, trim_stripped. Qed.

(** A core without outer whitespace is what [trim] leaves of it, whatever
    whitespace surrounds it. *)
Lemma trim_padded (ws1 core ws2 : jsstring) :
  forallb is_space ws1 = true -> forallb is_space ws2 = true ->
  stripped core -> trim (ws1 ++ core ++ ws2) = core.
Proof.
  intros H1 H2 Hc. unfold trim. rewrite trimStart_spaces by assumption.
  destruct core as [|c r].
  - simpl. destruct (trimStart_decompose ws2) as [ws [E H]].
    assert (Hn : trimStart ws2 = []).
    { destruct (trimStart ws2) as [|x t] eqn:Et; [reflexivity|].
      pose proof (trimStart_head _ _ _ Et) as Hx.
      rewrite forallb_forall in H2.
      rewrite (H2 x) in Hx; [discriminate|].
      rewrite E. apply in_or_app. right. now left. }
    now rewrite Hn.
  - destruct Hc as [Hh Hl].
    change ((c :: r) ++ ws2) with (c :: (r ++ ws2)).
    rewrite trimStart_keeps by (eapply Hh; reflexivity).
    change (c :: (r ++ ws2)) with ((c :: r) ++ ws2).
    rewrite trimEnd_spaces by assumption.
    now apply trimEnd_fix.
Qed.

Lemma ends_line_cases (a : jsstring) :
  ends_line a = true -> a = [] \/ exists t, a = t ++ [10].
Proof.
  unfold ends_line. intros H.
  destruct (rev a) as [|c t] eqn:E;
    apply (f_equal (@rev N)) in E; rewrite rev_involutive in E.
  - now left.
  - right. exists (rev t). apply N.eqb_eq in H. now subst.
Qed.

End StringFacts.

(* ================================================================== *)
(** * The parser's fuel *)

Section ParserFuel.

Lemma skip_ws_le (s : jsstring) : (length (skip_ws s) <= length s)%nat.
Proof.
  induction s as [|c s IH]; simpl; [lia|].
  destruct (is_ws c); simpl; lia.
Qed.

Lemma skip_ws_cons (s : jsstring) (c : N) (r : jsstring) :
  skip_ws s = c :: r -> (length r < length s)%nat.
Proof.
  intros E. pose proof (skip_ws_le s) as L. rewrite E in L. simpl in L. lia.
Qed.

Lemma string_body_lt (n : nat) (s acc str r : jsstring) :
  (length s <= n)%nat ->
  string_body s acc = Some (str, r) -> (length r < length s)%nat.
Proof.
  revert s acc. induction n as [|n IH]; intros s acc Hn H.
  - destruct s; [discriminate | simpl in Hn; lia].
  - destruct s as [|c s]; [discriminate|]. cbn [string_body] in H.
    simpl in Hn. simpl length.
    destruct (c =? 34).
    { injection H as _ <-. lia. }
    destruct (c =? 92).
    + destruct s as [|e s1]; [discriminate|].
      destruct (e =? 117).
      * destruct s1 as [|h1 [|h2 [|h3 [|h4 r2]]]]; try discriminate.
        destruct (hex4 h1 h2 h3 h4); [|discriminate].
        apply IH in H; simpl in *; lia.
      * destruct (unescape e); [|discriminate].
        apply IH in H; simpl in *; lia.
    + destruct (c <? 32); [discriminate|].
      apply IH in H; simpl in *; lia.
Qed.

Lemma digits_le (s ds r : jsstring) :
  digits s = (ds, r) -> (length r <= length s)%nat.
Proof.
  revert ds r. induction s as [|c s IH]; intros ds r H; simpl in H.
  - injection H as _ <-. simpl; lia.
  - destruct (is_digit c).
    + destruct (digits s) as [ds' r'] eqn:E. injection H as _ <-.
      specialize (IH _ _ eq_refl). simpl; lia.
    + injection H as _ <-. simpl; lia.
Qed.

Lemma sign_part_le (s sg r : jsstring) :
  sign_part s = (sg, r) -> (length r <= length s)%nat.
Proof.
  unfold sign_part. destruct s as [|c s]; [|destruct (c =? 45)];
    intros [= _ <-]; simpl; lia.
Qed.

Lemma int_part_lt (s ip r : jsstring) :
  int_part s = Some (ip, r) -> (length r < length s)%nat.
Proof.
  unfold int_part. destruct s as [|d s]; [discriminate|].
  destruct (d =? 48); [intros [= _ <-]; simpl; lia|].
  destruct (is_digit d); [|discriminate].
  destruct (digits s) as [ds r'] eqn:E. apply digits_le in E.
  intros [= _ <-]. simpl; lia.
Qed.

Lemma frac_part_le (s fp r : jsstring) :
  frac_part s = Some (fp, r) -> (length r <= length s)%nat.
Proof.
  unfold frac_part. destruct s as [|c s]; [intros [= _ <-]; simpl; lia|].
  destruct (c =? 46); [|intros [= _ <-]; simpl; lia].
  destruct (digits s) as [[|d ds] r'] eqn:E; [discriminate|].
  apply digits_le in E. intros [= _ <-]. simpl; lia.
Qed.

Lemma exp_part_le (s ep r : jsstring) :
  exp_part s = Some (ep, r) -> (length r <= length s)%nat.
Proof.
  unfold exp_part. destruct s as [|c s]; [intros [= _ <-]; simpl; lia|].
  destruct ((c =? 101) || (c =? 69)); [|intros [= _ <-]; simpl; lia].
  assert (L : forall sg r',
             match s with
             | g :: t => if (g =? 43) || (g =? 45) then ([g], t) else ([], s)
             | [] => ([], s)
             end = (sg, r') -> (length r' <= length s)%nat).
  { intros sg r'. destruct s as [|g t]; [|destruct ((g =? 43) || (g =? 45))];
      intros [= _ <-]; simpl; lia. }
  destruct (match s with [] => _ | _ => _ end) as [sg r'].
  specialize (L _ _ eq_refl).
  destruct (digits r') as [[|d ds] r''] eqn:E; [discriminate|].
  apply digits_le in E. intros [= _ <-]. simpl; lia.
Qed.

Lemma number_lt (s t r : jsstring) :
  number s = Some (t, r) -> (length r < length s)%nat.
Proof.
  unfold number. destruct (sign_part s) as [sg s1] eqn:E1.
  apply sign_part_le in E1.
  destruct (int_part s1) as [[ip s2]|] eqn:E2; [|discriminate].
  apply int_part_lt in E2.
  destruct (frac_part s2) as [[fp s3]|] eqn:E3; [|discriminate].
  apply frac_part_le in E3.
  destruct (exp_part s3) as [[ep s4]|] eqn:E4; [|discriminate].
  apply exp_part_le in E4. intros [= _ <-]. lia.
Qed.

Lemma startsWith_length (p s : jsstring) :
  startsWith p s = true -> (length p <= length s)%nat.
Proof.
  revert s. induction p as [|x p IH]; intros [|y s]; simpl; try lia;
    try discriminate.
  intros H. apply andb_true_iff in H as [_ H]. apply IH in H. lia.
Qed.

Lemma word_lt (w : jsstring) (v v' : json) (s r : jsstring) :
  w <> [] -> word w v s = Some (v', r) -> (length r < length s)%nat.
Proof.
  unfold word. intros Hw. destruct (startsWith w s) eqn:E; [|discriminate].
  apply startsWith_length in E. intros [= _ <-].
  rewrite length_skipn. destruct w; [contradiction|]. simpl in *. lia.
Qed.

(** A value, a run of elements or a run of members that parses with some
    fuel takes at least one code unit, and parses to the same result with
    any fuel of at least twice the number of code units it takes. *)
Lemma fuel_enough (f : nat) :
  (forall s v r, value f s = Some (v, r) ->
     (length r < length s)%nat /\
     forall g, (2 * (length s - length r) <= g)%nat ->
               value g s = Some (v, r)) /\
  (forall s vs r, elements f s = Some (vs, r) ->
     (length r < length s)%nat /\
     forall g, (2 * (length s - length r) <= S g)%nat ->
               elements g s = Some (vs, r)) /\
  (forall s ms r, members f s = Some (ms, r) ->
     (length r < length s)%nat /\
     forall g, (2 * (length s - length r) <= S g)%nat ->
               members g s = Some (ms, r)).
Proof.
  induction f as [|f [IHv [IHe IHm]]]; [repeat split; discriminate|].
  split; [|split].
  - intros s v r H. cbn [value] in H.
    destruct (skip_ws s) as [|c r0] eqn:E0; [discriminate|].
    pose proof (skip_ws_cons _ _ _ E0) as L0.
    assert (L0' : (length (c :: r0) <= length s)%nat) by (cbn [length]; lia).
    destruct (c =? 123) eqn:Ec1.
    { destruct (skip_ws r0) as [|c' r'] eqn:E1; [discriminate|].
      pose proof (skip_ws_cons _ _ _ E1) as L1.
      destruct (c' =? 125) eqn:Ec2.
      - injection H as <- <-. split; [lia|]. intros g Hg.
        destruct g; [lia|]. cbn [value]. now rewrite E0, Ec1, E1, Ec2.
      - destruct (members f (c' :: r')) as [[ms r'']|] eqn:Em;
          [|discriminate].
        injection H as <- <-. destruct (IHm _ _ _ Em) as [Lm Gm].
        cbn [length] in Lm. split; [lia|]. intros g Hg. destruct g; [lia|].
        cbn [value]. rewrite E0, Ec1, E1, Ec2, Gm; [reflexivity|].
        cbn [length]; lia. }
    destruct (c =? 91) eqn:Ec3.
    { destruct (skip_ws r0) as [|c' r'] eqn:E1; [discriminate|].
      pose proof (skip_ws_cons _ _ _ E1) as L1.
      destruct (c' =? 93) eqn:Ec2.
      - injection H as <- <-. split; [lia|]. intros g Hg.
        destruct g; [lia|]. cbn [value]. now rewrite E0, Ec1, Ec3, E1, Ec2.
      - destruct (elements f (c' :: r')) as [[vs r'']|] eqn:Em;
          [|discriminate].
        injection H as <- <-. destruct (IHe _ _ _ Em) as [Lm Gm].
        cbn [length] in Lm. split; [lia|]. intros g Hg. destruct g; [lia|].
        cbn [value]. rewrite E0, Ec1, Ec3, E1, Ec2, Gm; [reflexivity|].
        cbn [length]; lia. }
    assert (Leaf : forall w : option (json * jsstring),
               w = Some (v, r) ->
               (forall v' r', w = Some (v', r') ->
                              (length r' < length (c :: r0))%nat) ->
               (forall g, value (S g) s = w) ->
               (length r < length s)%nat /\
               forall g, (2 * (length s - length r) <= g)%nat ->
                         value g s = Some (v, r)).
    { intros w Hw Hl Hg. specialize (Hl _ _ Hw). split; [lia|].
      intros g Hb. destruct g; [lia|]. now rewrite Hg. }
    destruct (c =? 34) eqn:Ec4.
    { destruct (string_body r0 []) as [[str r']|] eqn:Es; [|discriminate].
      apply (Leaf (Some (JString str, r')) H).
      - intros v' r'' [= _ <-].
        apply (string_body_lt _ _ _ _ _ (le_n _)) in Es. cbn [length]; lia.
      - intros g. cbn [value]. now rewrite E0, Ec1, Ec3, Ec4, Es. }
    destruct (c =? 116) eqn:Ec5.
    { apply (Leaf _ H).
      - intros v' r'. now apply word_lt.
      - intros g. cbn [value]. now rewrite E0, Ec1, Ec3, Ec4, Ec5. }
    destruct (c =? 102) eqn:Ec6.
    { apply (Leaf _ H).
      - intros v' r'. now apply word_lt.
      - intros g. cbn [value]. now rewrite E0, Ec1, Ec3, Ec4, Ec5, Ec6. }
    destruct (c =? 110) eqn:Ec7.
    { apply (Leaf _ H).
      - intros v' r'. now apply word_lt.
      - intros g. cbn [value]. now rewrite E0, Ec1, Ec3, Ec4, Ec5, Ec6, Ec7. }
    destruct (number (c :: r0)) as [[t r']|] eqn:En; [|discriminate].
    apply (Leaf (Some (JNumber t, r')) H).
    + intros v' r'' [= _ <-]. now apply number_lt in En.
    + intros g. cbn [value].
      now rewrite E0, Ec1, Ec3, Ec4, Ec5, Ec6, Ec7, En.
  - intros s vs r H. cbn [elements] in H.
    destruct (value f s) as [[v r0]|] eqn:Ev; [|discriminate].
    destruct (IHv _ _ _ Ev) as [Lv Gv].
    destruct (skip_ws r0) as [|c r1] eqn:E0; [discriminate|].
    pose proof (skip_ws_cons _ _ _ E0) as L0.
    destruct (c =? 44) eqn:Ec1.
    + destruct (elements f r1) as [[vs' r2]|] eqn:Ee; [|discriminate].
      injection H as <- <-. destruct (IHe _ _ _ Ee) as [Le Ge].
      split; [lia|]. intros g Hg. destruct g; [lia|].
      cbn [elements]. rewrite Gv by lia. rewrite E0, Ec1, Ge by lia.
      reflexivity.
    + destruct (c =? 93) eqn:Ec2; [|discriminate].
      injection H as <- <-. split; [lia|]. intros g Hg. destruct g; [lia|].
      cbn [elements]. rewrite Gv by lia. now rewrite E0, Ec1, Ec2.
  - intros s ms r H. cbn [members] in H.
    destruct (skip_ws s) as [|q r0] eqn:E0; [discriminate|].
    pose proof (skip_ws_cons _ _ _ E0) as L0.
    destruct (q =? 34) eqn:Eq; [|discriminate].
    destruct (string_body r0 []) as [[key r1]|] eqn:Es; [|discriminate].
    pose proof (string_body_lt _ _ _ _ _ (le_n _) Es) as Ls.
    destruct (skip_ws r1) as [|colon r2] eqn:E1; [discriminate|].
    pose proof (skip_ws_cons _ _ _ E1) as L1.
    destruct (colon =? 58) eqn:Ecolon; [|discriminate].
    destruct (value f r2) as [[v r3]|] eqn:Ev; [|discriminate].
    destruct (IHv _ _ _ Ev) as [Lv Gv].
    destruct (skip_ws r3) as [|c r4] eqn:E2; [discriminate|].
    pose proof (skip_ws_cons _ _ _ E2) as L2.
    destruct (c =? 44) eqn:Ec1.
    + destruct (members f r4) as [[ms' r5]|] eqn:Em; [|discriminate].
      injection H as <- <-. destruct (IHm _ _ _ Em) as [Lm Gm].
      split; [lia|]. intros g Hg. destruct g; [lia|].
      cbn [members]. rewrite E0, Eq, Es, E1, Ecolon, Gv by lia.
      rewrite E2, Ec1, Gm by lia. reflexivity.
    + destruct (c =? 125) eqn:Ec2; [|discriminate].
      injection H as <- <-. split; [lia|]. intros g Hg. destruct g; [lia|].
      cbn [members]. rewrite E0, Eq, Es, E1, Ecolon, Gv by lia.
      now rewrite E2, Ec1, Ec2.
Qed.

(** [parse] gives every result that the grammar gives with any fuel. *)
Lemma parse_fuel (fuel : nat) (text : jsstring) (v : json) (r : jsstring) :
  value fuel text = Some (v, r) -> skip_ws r = [] -> parse text = Some v.
Proof.
  intros H Hr. destruct (fuel_enough fuel) as [Hv _].
  destruct (Hv _ _ _ H) as [_ G]. unfold parse.
  rewrite G by lia. now rewrite Hr.
Qed.

(** [parse] is the grammar: it fails only on a text that no amount of fuel
    parses. *)
Lemma parse_complete (text : jsstring) (v : json) :
  parse text = Some v <->
  exists fuel r, value fuel text = Some (v, r) /\ skip_ws r = [].
Proof.
  split.
  - unfold parse. intros H.
    destruct (value (2 * length text + 2) text) as [[v' r]|] eqn:E;
      [|discriminate].
    destruct (skip_ws r) eqn:Er; [|discriminate].
    injection H as <-. now exists (2 * length text + 2)%nat, r.
  - intros [fuel [r [H Hr]]]. exact (parse_fuel _ _ _ _ H Hr).
Qed.

End ParserFuel.

(* ================================================================== *)
(** * The event-stream decoder *)

Section DecoderFacts.

Variable JSON_parse : jsstring -> option json.

Lemma processLines_cons (line : jsstring) (rest : list jsstring) :
  processLines JSON_parse (line :: rest) =
  if startsWith DATA_PREFIX line then
    if str_eqb (trim (slice 6 line)) DONE then ([], true)
    else match payloadCall JSON_parse (trim (slice 6 line)) with
         | Some c => (c :: fst (processLines JSON_parse rest),
                      snd (processLines JSON_parse rest))
         | None => processLines JSON_parse rest
         end
  else processLines JSON_parse rest.
Proof.
  cbn [processLines]. destruct (startsWith DATA_PREFIX line); [|reflexivity].
  destruct (str_eqb (trim (slice 6 line)) DONE); [reflexivity|].
  destruct (payloadCall JSON_parse (trim (slice 6 line))); [|reflexivity].
  now destruct (processLines JSON_parse rest).
Qed.

Lemma processLines_app (l1 l2 : list jsstring) :
  processLines JSON_parse (l1 ++ l2)
  = andThen (processLines JSON_parse l1) (processLines JSON_parse l2).
Proof.
  unfold andThen. induction l1 as [|line l1 IH].
  - simpl. now destruct (processLines JSON_parse l2).
  - rewrite <- app_comm_cons, !processLines_cons.
    destruct (startsWith DATA_PREFIX line); [|exact IH].
    destruct (str_eqb (trim (slice 6 line)) DONE); [reflexivity|].
    destruct (payloadCall JSON_parse (trim (slice 6 line))); [|exact IH].
    rewrite IH.
    destruct (processLines JSON_parse l1) as [c1 d1]; simpl.
    now destruct d1.
Qed.

Lemma processLines_blank : processLines JSON_parse [[]] = ([], false).
Proof. reflexivity. Qed.

(** A chunk that ends on a line boundary, followed by more text, is decoded
    like the chunk and then the text. *)
Lemma onData_app_aligned (a b : jsstring) :
  ends_line a = true ->
  onData JSON_parse (a ++ b)
  = andThen (onData JSON_parse a) (onData JSON_parse b).
Proof.
  intros H. unfold onData.
  destruct (ends_line_cases a H) as [->|[t ->]].
  - rewrite app_nil_l. change (split 10 []) with [@nil N].
    rewrite processLines_blank. unfold andThen; simpl.
    now destruct (processLines JSON_parse (split 10 b)).
  - rewrite <- app_assoc. change ([10] ++ b) with (10 :: b).
    rewrite !split_app_sep. change (split 10 []) with [@nil N].
    rewrite !processLines_app, processLines_blank.
    unfold andThen; simpl.
    destruct (processLines JSON_parse (split 10 t)) as [c1 d1].
    simpl. destruct d1; [reflexivity|]. now rewrite app_nil_r.
Qed.

Lemma feed_cons (chunk : jsstring) (rest : list jsstring) (fin : stream_end) :
  feed JSON_parse (chunk :: rest) fin =
  if snd (onData JSON_parse chunk)
  then (fst (onData JSON_parse chunk), Resolved)
  else (fst (onData JSON_parse chunk) ++ fst (feed JSON_parse rest fin),
        snd (feed JSON_parse rest fin)).
Proof.
  cbn [feed]. destruct (onData JSON_parse chunk) as [c d]; simpl.
  destruct d; [reflexivity|].
  now destruct (feed JSON_parse rest fin).
Qed.

Lemma feed_single (chunk : jsstring) (fin : stream_end) :
  feed JSON_parse [chunk] fin =
  (fst (onData JSON_parse chunk),
   if snd (onData JSON_parse chunk) then Resolved
   else match fin with StreamEnd => Resolved | StreamError m => Rejected m end).
Proof.
  rewrite feed_cons. destruct (snd (onData JSON_parse chunk)); [reflexivity|].
  simpl. now rewrite app_nil_r.
Qed.

(** The calls made before the promise settles open the list of all the
    calls the listener makes. *)
Lemma feed_prefix_allCalls (chunks : list jsstring) (fin : stream_end) :
  exists late,
    allCalls JSON_parse chunks = fst (feed JSON_parse chunks fin) ++ late.
Proof.
  induction chunks as [|chunk rest [late IH]].
  - now exists [].
  - rewrite feed_cons. unfold allCalls in *. cbn [flat_map].
    destruct (snd (onData JSON_parse chunk)); simpl.
    + eexists; reflexivity.
    + exists late. now rewrite IH, app_assoc.
Qed.

(** C1 (as amended).  When every cut between two chunks falls on a line
    boundary, the decoder makes the same calls to [onChunk], and its promise
    settles the same way, as on the whole text delivered as one chunk. *)
Theorem feed_line_aligned (chunks : list jsstring) (fin : stream_end) :
  line_aligned chunks = true ->
  feed JSON_parse chunks fin = feed JSON_parse [concat chunks] fin.
Proof.
  induction chunks as [|chunk rest IH]; intros H.
  - reflexivity.
  - destruct rest as [|next rest'].
    + simpl concat. now rewrite app_nil_r.
    + cbn [line_aligned] in H. apply andb_true_iff in H as [Hc Hr].
      specialize (IH Hr). rewrite feed_cons, IH, !feed_single.
      change (concat (chunk :: next :: rest'))
        with (chunk ++ concat (next :: rest')).
      rewrite (onData_app_aligned _ _ Hc). unfold andThen.
      destruct (onData JSON_parse chunk) as [c1 d1]; simpl.
      destruct d1; reflexivity.
Qed.

(** A payload that is the sentinel once trimmed ends the loop at once. *)
Lemma processLines_done (line : jsstring) (rest : list jsstring) :
  startsWith DATA_PREFIX line = true ->
  trim (slice 6 line) = DONE ->
  processLines JSON_parse (line :: rest) = ([], true).
Proof. intros Hp Hd. now rewrite processLines_cons, Hp, Hd. Qed.

(** A data line with any other payload leaves the loop running. *)
Lemma processLines_not_done (line : jsstring) (rest : list jsstring) :
  startsWith DATA_PREFIX line = true ->
  trim (slice 6 line) <> DONE ->
  processLines JSON_parse (line :: rest) =
  match payloadCall JSON_parse (trim (slice 6 line)) with
  | Some c => (c :: fst (processLines JSON_parse rest),
               snd (processLines JSON_parse rest))
  | None => processLines JSON_parse rest
  end.
Proof.
  intros Hp Hd. rewrite processLines_cons, Hp.
  apply str_eqb_neq in Hd. now rewrite Hd.
Qed.

(** The loop leaves through [resolve(); return] on a line exactly when the
    line is a data line whose trimmed payload is [[DONE]], letter for
    letter. *)
Lemma sentinel_exact (line : jsstring) :
  snd (processLines JSON_parse [line]) = true <->
  startsWith DATA_PREFIX line = true /\ trim (slice 6 line) = DONE.
Proof.
  rewrite processLines_cons.
  destruct (startsWith DATA_PREFIX line); cbn [processLines snd].
  2:{ split; [discriminate | intros [H _]; discriminate]. }
  destruct (str_eqb (trim (slice 6 line)) DONE) eqn:E.
  - apply str_eqb_eq in E. now split.
  - apply str_eqb_neq in E.
    destruct (payloadCall JSON_parse (trim (slice 6 line))); cbn [snd];
      (split; [discriminate | intros [_ H]; contradiction]).
Qed.

Lemma DONE_stripped : stripped DONE.
Proof.
  split; intros c r E.
  - now injection E as <- _.
  - change DONE with ([91; 68; 79; 78; 69] ++ [93]) in E.
    apply app_inj_tail in E as [_ <-]. reflexivity.
Qed.

(** All the calls of the listener over a stream: those made until the
    promise settles, then the late ones. *)
Lemma allCalls_feed_late (chunks : list jsstring) (fin : stream_end) :
  allCalls JSON_parse chunks
  = fst (feed JSON_parse chunks fin) ++ lateCalls JSON_parse chunks.
Proof.
  induction chunks as [|chunk rest IH]; [reflexivity|].
  rewrite feed_cons. cbn [lateCalls]. unfold allCalls in *. cbn [flat_map].
  destruct (snd (onData JSON_parse chunk)); cbn [fst]; [reflexivity|].
  now rewrite IH, app_assoc.
Qed.

(** The property chain of the listener, read on the structure of the
    parsed value. *)
Lemma chain_carried (e : option json) :
  opt_chain (opt_chain e (member DELTA)) (member CONTENT)
  = match e with
    | Some (JObject mc) =>
        match lookup DELTA mc with
        | Some (JObject md) => lookup CONTENT md
        | _ => None
        end
    | _ => None
    end.
Proof.
  destruct e as [e|]; [|reflexivity].
  destruct e as [|b|t|s|items|mc]; try reflexivity. cbn [opt_chain member].
  destruct (lookup DELTA mc) as [d|]; [|reflexivity].
  destruct d; reflexivity.
Qed.

Lemma deltaContent_carried (parsed : json) :
  deltaContent parsed
  = match parsed with
    | JNull => None
    | _ => Some (carried parsed)
    end.
Proof.
  destruct parsed as [|b|t|s|items|ms]; try reflexivity.
  unfold deltaContent, carried. f_equal. rewrite chain_carried.
  cbn [member]. destruct (lookup CHOICES ms) as [ch|]; [|reflexivity].
  destruct ch as [|b|t|s|items|ms']; try reflexivity.
  now destruct s.
Qed.

(** The call that a payload leads to. *)
Lemma payloadCall_carried (data : jsstring) :
  payloadCall JSON_parse data
  = match JSON_parse data with
    | None => None
    | Some parsed => if truthy (carried parsed) then carried parsed else None
    end.
Proof.
  unfold payloadCall. destruct (JSON_parse data) as [parsed|]; [|reflexivity].
  rewrite deltaContent_carried. now destruct parsed.
Qed.

Lemma unusable_no_call (data : jsstring) :
  unusable JSON_parse data = true <-> payloadCall JSON_parse data = None.
Proof.
  rewrite payloadCall_carried. unfold unusable.
  destruct (JSON_parse data) as [parsed|]; [|tauto].
  destruct (truthy (carried parsed)) eqn:E; cbn [negb].
  - destruct (carried parsed); [split; discriminate | discriminate].
  - tauto.
Qed.

Lemma shapeContent_carried (parsed : json) (s : jsstring) :
  shapeContent parsed = Some s -> carried parsed = Some (JString s).
Proof.
  unfold shapeContent, carried.
  destruct parsed as [|b|t|s'|items|ms]; try discriminate.
  destruct (lookup CHOICES ms) as [ch|]; [|discriminate].
  destruct ch as [|b|t|s'|items|ms']; try discriminate.
  destruct items as [|first items]; [discriminate|].
  destruct first as [|b|t|s'|items'|mc]; try discriminate.
  cbn [firstChoice].
  destruct (lookup DELTA mc) as [d|]; [|discriminate].
  destruct d as [|b|t|s'|items'|md]; try discriminate.
  destruct (lookup CONTENT md) as [c|]; [|discriminate].
  destruct c; try discriminate. now intros [= ->].
Qed.

(** A valid record delivers its fragment, and the loop goes on. *)
Lemma processLines_valid (line s : jsstring) (rest : list jsstring) :
  validRecord JSON_parse line s ->
  processLines JSON_parse (line :: rest)
  = (delivery s ++ fst (processLines JSON_parse rest),
     snd (processLines JSON_parse rest)).
Proof.
  intros [Hp [Hd [parsed [E [_ Hs]]]]].
  rewrite processLines_not_done by assumption.
  rewrite payloadCall_carried, E, (shapeContent_carried _ _ Hs).
  destruct s; cbn [truthy delivery app];
    now destruct (processLines JSON_parse rest).
Qed.

End DecoderFacts.

(** C4 (as amended).  A data line whose payload is [[DONE]], in exactly this
    letter case, surrounded by any whitespace, resolves the call and ends the
    decoding of its chunk: no line after it adds a call to [onChunk], and the
    promise is resolved whatever chunks follow.  This holds whatever
    [JSON.parse] would make of the payload, which is never parsed. *)
Theorem sentinel_modulo_whitespace
    (JSON_parse : jsstring -> option json)
    (ws1 ws2 : jsstring) (rest : list jsstring) :
  forallb is_space ws1 = true -> forallb is_space ws2 = true ->
  let line := DATA_PREFIX ++ ws1 ++ DONE ++ ws2 in
  processLines JSON_parse (line :: rest) = ([], true) /\
  forall chunk before later fin,
    split 10 chunk = before ++ line :: rest ->
    feed JSON_parse (chunk :: later) fin
    = (fst (processLines JSON_parse before), Resolved).
Proof.
  intros H1 H2 line.
  assert (E : processLines JSON_parse (line :: rest) = ([], true)).
  { apply processLines_done.
    - apply startsWith_app.
    - change (slice 6 line) with (ws1 ++ DONE ++ ws2).
      apply trim_padded; auto using DONE_stripped. }
  split; [exact E|].
  intros chunk before later fin Hs.
  rewrite feed_cons. unfold onData.
  rewrite Hs, processLines_app, E. unfold andThen.
  destruct (processLines JSON_parse before) as [calls done]; cbn [fst snd].
  destruct done; cbn [fst snd]; [reflexivity|]. now rewrite app_nil_r.
Qed.

Lemma sentinel_modulo_whitespace_witness :
  let line := DATA_PREFIX ++ [32; 9] ++ DONE ++ [13] in
  processLines Json.parse (line :: [deltaRecord "late"]) = ([], true) /\
  forall chunk before later fin,
    split 10 chunk = before ++ line :: [deltaRecord "late"] ->
    feed Json.parse (chunk :: later) fin
    = (fst (processLines Json.parse before), Resolved).
Proof.
  apply (sentinel_modulo_whitespace Json.parse [32; 9] [13]); reflexivity.
Defined.

(** Inside a chunk: a data line with nothing to deliver, between two line
    feeds, can be taken out of the chunk. *)
Lemma unusable_line_in_chunk
    (JSON_parse : jsstring -> option json) (a line b : jsstring) :
  ~ In 10 line ->
  startsWith DATA_PREFIX line = true ->
  trim (slice 6 line) <> DONE ->
  unusable JSON_parse (trim (slice 6 line)) = true ->
  onData JSON_parse (a ++ 10 :: line ++ 10 :: b)
  = onData JSON_parse (a ++ 10 :: b).
Proof.
  intros Hn Hp Hd Hm. unfold onData.
  rewrite !split_app_sep, (split_no_sep _ _ Hn).
  rewrite !processLines_app. f_equal.
  rewrite processLines_not_done by assumption.
  apply unusable_no_call in Hm. rewrite Hm.
  unfold andThen. cbn [processLines fst snd app].
  now destruct (processLines JSON_parse (split 10 b)).
Qed.

(** A data line that is not the sentinel is skipped exactly when its payload
    has nothing to deliver; otherwise the value it holds at the place of a
    fragment is handed to [onChunk], whatever the shape around it. *)
Lemma skipped_iff_unusable
    (JSON_parse : jsstring -> option json) (line : jsstring)
    (rest : list jsstring) :
  startsWith DATA_PREFIX line = true ->
  trim (slice 6 line) <> DONE ->
  (unusable JSON_parse (trim (slice 6 line)) = true ->
   processLines JSON_parse (line :: rest) = processLines JSON_parse rest) /\
  (unusable JSON_parse (trim (slice 6 line)) = false ->
   exists parsed c,
     JSON_parse (trim (slice 6 line)) = Some parsed /\
     carried parsed = Some c /\
     processLines JSON_parse (line :: rest)
     = (c :: fst (processLines JSON_parse rest),
        snd (processLines JSON_parse rest))).
Proof.
  intros Hp Hd. rewrite processLines_not_done by assumption. split.
  - intros Hm. apply unusable_no_call in Hm. now rewrite Hm.
  - unfold unusable. rewrite payloadCall_carried.
    destruct (JSON_parse (trim (slice 6 line))) as [parsed|]; [|discriminate].
    intros H. apply negb_false_iff in H. rewrite H.
    destruct (carried parsed) as [c|] eqn:E; [|discriminate].
    exists parsed, c. split; [reflexivity|]. split; [exact E|].
    now destruct (processLines JSON_parse rest).
Qed.

(** Valid records, one after the other, deliver their fragments in order,
    and the loop goes on with what follows them. *)
Lemma processLines_valid_run
    (JSON_parse : jsstring -> option json)
    (records : list (jsstring * jsstring)) (rest : list jsstring) :
  Forall (fun r => validRecord JSON_parse (fst r) (snd r)) records ->
  processLines JSON_parse (map fst records ++ rest)
  = (flat_map delivery (map snd records)
     ++ fst (processLines JSON_parse rest),
     snd (processLines JSON_parse rest)).
Proof.
  induction 1 as [|[good s] records Hg _ IH]; cbn [map flat_map app fst snd].
  - now destruct (processLines JSON_parse rest).
  - rewrite (processLines_valid _ _ _ _ Hg), IH. cbn [fst snd].
    now rewrite <- app_assoc.
Qed.

(** C7 (as amended).  A data line that is not the sentinel and whose payload
    has nothing to deliver (it is no JSON text, or its value holds nothing
    or something falsy at the place of a fragment) is skipped: the listener
    does on the lines around it exactly what it does without it, nothing
    being thrown; and the valid records that follow it all deliver their
    fragments, in order, after which the loop goes on with the rest. *)
Theorem unusable_record_skipped
    (JSON_parse : jsstring -> option json)
    (before after : list jsstring) (line : jsstring) :
  startsWith DATA_PREFIX line = true ->
  trim (slice 6 line) <> DONE ->
  unusable JSON_parse (trim (slice 6 line)) = true ->
  processLines JSON_parse (before ++ line :: after)
  = processLines JSON_parse (before ++ after) /\
  forall records rest,
    Forall (fun r => validRecord JSON_parse (fst r) (snd r)) records ->
    processLines JSON_parse (line :: map fst records ++ rest)
    = (flat_map delivery (map snd records)
       ++ fst (processLines JSON_parse rest),
       snd (processLines JSON_parse rest)).
Proof.
  intros Hp Hd Hm. apply unusable_no_call in Hm. split.
  - rewrite !processLines_app. f_equal.
    rewrite processLines_not_done by assumption. now rewrite Hm.
  - intros records rest Hg.
    rewrite processLines_not_done by assumption. rewrite Hm.
    now apply processLines_valid_run.
Qed.

(* ================================================================== *)
(** * The session loop *)

Section AggregatorFacts.

Lemma fold_onChunk (calls : list json) (out : list output) (text : jsstring) :
  fold_left onChunk calls (out, text)
  = (out ++ map Write (fragments calls), text ++ concat (fragments calls)).
Proof.
  revert out text. induction calls as [|c calls IH]; intros out text.
  - simpl. now rewrite !app_nil_r.
  - cbn [fold_left]. destruct c; unfold onChunk at 2; cbn [fragment_of fst snd];
      rewrite IH; cbn [fragments]; try reflexivity.
    cbn [map concat]. now rewrite <- !app_assoc.
Qed.

(** The callback writes each fragment and appends it to [response], in the
    order of the calls. *)
Lemma aggregate_fragments (calls : list json) :
  aggregate calls
  = (map Write (fragments calls), concat (fragments calls)).
Proof. unfold aggregate. now rewrite fold_onChunk. Qed.

Lemma written_app (a b : list output) :
  written (a ++ b) = written a ++ written b.
Proof.
  induction a as [|o a IH]; [reflexivity|].
  destruct o; simpl; rewrite IH; try reflexivity.
  now rewrite app_assoc.
Qed.

Lemma written_fragments (frags : list jsstring) :
  written (map Write frags) = concat frags.
Proof. induction frags as [|f frags IH]; simpl; congruence. Qed.

End AggregatorFacts.

Section SessionFacts.

Variable JSON_parse : jsstring -> option json.
Variable config : Config.
Variable options : Options.

Lemma iteration_chat (st : session) (input : jsstring) (srv : server) :
  alive st = true -> isChatTurn input = true ->
  iteration JSON_parse config options st input srv
  = chatTurn JSON_parse config options (trim input) srv st.
Proof.
  unfold isChatTurn, iteration. intros Ha H.
  apply andb_true_iff in H as [Hv Hs]. apply negb_true_iff in Hs.
  now rewrite Ha, Hv, Hs.
Qed.

Lemma iteration_slash (st : session) (input : jsstring) (srv : server) :
  alive st = true -> validate input = true ->
  startsWith SLASH (trim input) = true ->
  iteration JSON_parse config options st input srv
  = slashCommand config options (trim input) st.
Proof.
  unfold iteration. intros Ha Hv Hs. now rewrite Ha, Hv, Hs.
Qed.

Lemma dispatches_inv (name input : jsstring) :
  dispatches name input = true ->
  validate input = true /\ startsWith SLASH (trim input) = true /\
  commandName input = name.
Proof.
  unfold dispatches. intros H.
  apply andb_true_iff in H as [H Hn]. apply andb_true_iff in H as [Hv Hs].
  apply str_eqb_eq in Hn. auto.
Qed.

(** What a chat turn leaves in [messages]: the user message, followed by the
    reply when the call succeeds. *)
Lemma chatTurn_messages (text : jsstring) (srv : server) (st : session) :
  messages (chatTurn JSON_parse config options text srv st)
  = messages st ++ userMessage text ::
      match replyText JSON_parse config options srv with
      | Some reply => [assistantMessage reply]
      | None => []
      end.
Proof.
  unfold chatTurn, replyText.
  destruct (useStream config options).
  - destruct (streamChat JSON_parse (stream_answer srv)) as [calls outcome].
    destruct (aggregate calls) as [writes response].
    destruct outcome; cbn [messages snd]; [|reflexivity].
    now rewrite <- app_assoc.
  - destruct (chat_answer srv) as [m|response]; [reflexivity|].
    destruct (choices response) as [|reply more]; cbn [messages hd_error];
      [reflexivity|].
    now rewrite <- app_assoc.
Qed.

(** The request of a chat turn carries the session's provider and model and
    the transcript with the turn's user message at its end. *)
Lemma chatTurn_sent (text : jsstring) (srv : server) (st : session) :
  sent (chatTurn JSON_parse config options text srv st)
  = sent st ++
    [{| req_provider := provider config options;
        req_model := model config options;
        req_messages := messages st ++ [userMessage text];
        req_stream := if useStream config options then Some true else None |}].
Proof.
  unfold chatTurn.
  destruct (useStream config options).
  - destruct (streamChat JSON_parse (stream_answer srv)) as [calls outcome].
    destruct (aggregate calls) as [writes response].
    now destruct outcome.
  - destruct (chat_answer srv) as [m|response]; [reflexivity|].
    now destruct (choices response).
Qed.

Lemma callFails_no_reply (srv : server) :
  callFails JSON_parse config options srv = true <->
  replyText JSON_parse config options srv = None.
Proof.
  unfold callFails, replyText.
  destruct (useStream config options).
  - destruct (streamChat JSON_parse (stream_answer srv)) as [calls outcome].
    destruct outcome; cbn [snd]; split; congruence.
  - destruct (chat_answer srv) as [m|response]; [tauto|].
    destruct (choices response); cbn [hd_error]; split; congruence.
Qed.

Lemma seed_roles : Forall (fun m => role m = system) (seed options).
Proof.
  unfold seed. destruct (opt_system options) as [[|c r]|]; repeat constructor.
Qed.

(** A slash command leaves [messages] as it is or resets it to the seed. *)
Lemma slashCommand_messages (text : jsstring) (st : session) :
  messages (slashCommand config options text st) = messages st \/
  messages (slashCommand config options text st) = seed options.
Proof.
  unfold slashCommand.
  repeat match goal with
         | |- context [if ?b then _ else _] => destruct b
         | |- context [match ?x with _ => _ end] => destruct x
         end; auto.
Qed.

Lemma slashCommand_sent (text : jsstring) (st : session) :
  sent (slashCommand config options text st) = sent st.
Proof.
  unfold slashCommand.
  repeat match goal with
         | |- context [if ?b then _ else _] => destruct b
         | |- context [match ?x with _ => _ end] => destruct x
         end; reflexivity.
Qed.

(** The four things one round can do to [messages]. *)
Lemma iteration_messages (st : session) (input : jsstring) (srv : server) :
  messages (iteration JSON_parse config options st input srv) = messages st \/
  messages (iteration JSON_parse config options st input srv) = seed options \/
  isChatTurn input = true /\
  messages (iteration JSON_parse config options st input srv)
  = messages st ++ userMessage (trim input) ::
      match replyText JSON_parse config options srv with
      | Some reply => [assistantMessage reply]
      | None => []
      end.
Proof.
  destruct (alive st) eqn:Ha.
  2:{ left. unfold iteration. now rewrite Ha. }
  destruct (validate input) eqn:Hv.
  2:{ left. unfold iteration. now rewrite Ha, Hv. }
  destruct (startsWith SLASH (trim input)) eqn:Hs.
  - rewrite iteration_slash by assumption.
    destruct (slashCommand_messages (trim input) st); auto.
  - right; right.
    assert (Hc : isChatTurn input = true).
    { unfold isChatTurn. now rewrite Hv, Hs. }
    split; [assumption|].
    rewrite iteration_chat by assumption. apply chatTurn_messages.
Qed.

Lemma iteration_sent (st : session) (input : jsstring) (srv : server) :
  sent (iteration JSON_parse config options st input srv) = sent st \/
  exists request,
    sent (iteration JSON_parse config options st input srv)
    = sent st ++ [request] /\
    req_provider request = provider config options.
Proof.
  destruct (alive st) eqn:Ha.
  2:{ left. unfold iteration. now rewrite Ha. }
  destruct (validate input) eqn:Hv.
  2:{ left. unfold iteration. now rewrite Ha, Hv. }
  destruct (startsWith SLASH (trim input)) eqn:Hs.
  - left. rewrite iteration_slash by assumption. apply slashCommand_sent.
  - right. rewrite iteration_chat
      by (try assumption; unfold isChatTurn; now rewrite Hv, Hs).
    rewrite chatTurn_sent. eexists. split; reflexivity.
Qed.

(** Every request of a session names the provider chosen when the session
    started. *)
Lemma run_sent_provider (rounds : list (jsstring * server)) (st : session) :
  Forall (fun r => req_provider r = provider config options) (sent st) ->
  Forall (fun r => req_provider r = provider config options)
         (sent (run JSON_parse config options st rounds)).
Proof.
  revert st. induction rounds as [|[input srv] rounds IH]; intros st H.
  - exact H.
  - cbn [run]. apply IH.
    destruct (iteration_sent st input srv) as [E|[request [E Hp]]];
      rewrite E; [assumption|].
    apply Forall_app. split; [assumption|]. now constructor.
Qed.

Lemma run_assistant (rounds : list (jsstring * server)) (st : session)
    (m : ChatMessage) :
  In m (messages (run JSON_parse config options st rounds)) ->
  role m = assistant ->
  In m (messages st) \/
  exists input srv,
    In (input, srv) rounds /\ isChatTurn input = true /\
    replyText JSON_parse config options srv = Some (content m).
Proof.
  revert st. induction rounds as [|[input srv] rounds IH]; intros st Hin Hr.
  - now left.
  - cbn [run] in Hin. destruct (IH _ Hin Hr) as [Hm|[i [s [Hi H]]]].
    2:{ right. exists i, s. split; [now right | assumption]. }
    destruct (iteration_messages st input srv) as [E|[E|[Hc E]]];
      rewrite E in Hm.
    + now left.
    + exfalso. pose proof seed_roles as Hs. rewrite Forall_forall in Hs.
      apply Hs in Hm. congruence.
    + apply in_app_or in Hm as [Hm|[Hm|Hm]].
      * now left.
      * subst m. discriminate.
      * right. exists input, srv. split; [now left|]. split; [assumption|].
        destruct (replyText JSON_parse config options srv) as [reply|];
          [|contradiction].
        destruct Hm as [Hm|[]]. now subst m.
Qed.

(** C2 (as amended).  A chat turn whose call fails leaves in the transcript
    what was there before the turn, followed by the turn's user message and
    by no assistant message; the request of a chat turn that follows carries
    that user message. *)
Theorem failed_turn_keeps_user_message
    (st : session) (input next : jsstring) (srv srv' : server) :
  alive st = true -> isChatTurn input = true ->
  callFails JSON_parse config options srv = true ->
  isChatTurn next = true ->
  let st' := iteration JSON_parse config options st input srv in
  messages st' = messages st ++ [userMessage (trim input)] /\
  exists request,
    sent (iteration JSON_parse config options st' next srv')
    = sent st' ++ [request] /\
    req_messages request
    = messages st ++ [userMessage (trim input); userMessage (trim next)].
Proof.
  intros Ha Hc Hf Hn st'.
  assert (Hm : messages st' = messages st ++ [userMessage (trim input)]).
  { subst st'. rewrite iteration_chat, chatTurn_messages by assumption.
    apply callFails_no_reply in Hf. now rewrite Hf. }
  assert (Ha' : alive st' = true).
  { subst st'. rewrite iteration_chat by assumption.
    unfold chatTurn. rewrite <- Ha.
    destruct (useStream config options).
    - destruct (streamChat JSON_parse (stream_answer srv)) as [calls outcome].
      destruct (aggregate calls). now destruct outcome.
    - destruct (chat_answer srv) as [m|response]; [reflexivity|].
      now destruct (choices response). }
  split; [exact Hm|].
  rewrite iteration_chat, chatTurn_sent by assumption.
  eexists. split; [reflexivity|]. cbn [req_messages].
  now rewrite Hm, <- app_assoc.
Qed.

(** C3.  Whatever lines are submitted and whatever the service answers, an
    assistant message of the transcript is the whole reply of a chat turn of
    the session whose call succeeded: the text aggregated until the stream
    settled, or the content returned by the plain call. *)
Theorem no_partial_assistant_message
    (rounds : list (jsstring * server)) (m : ChatMessage) :
  In m (messages (chatCommand JSON_parse config options rounds)) ->
  role m = assistant ->
  exists input srv,
    In (input, srv) rounds /\ isChatTurn input = true /\
    replyText JSON_parse config options srv = Some (content m).
Proof.
  unfold chatCommand. intros Hin Hr.
  destruct (run_assistant rounds _ m Hin Hr) as [Hs|H]; [|exact H].
  exfalso. unfold start in Hs.
  destruct (truthy_str (apiKey config)); cbn [messages] in Hs; [|contradiction].
  pose proof seed_roles as Hseed. rewrite Forall_forall in Hseed.
  apply Hseed in Hs. congruence.
Qed.

(** A streaming turn whose call resolves.  The assistant message committed
    is the concatenation of the fragments delivered until the promise
    resolved, in their order; the callback writes these to the terminal, one
    write each, and after the turn it writes the fragments that are delivered
    late as well.  So what is displayed is what is committed exactly when
    nothing is delivered late. *)
Lemma streamed_turn
    (st : session) (input : jsstring) (srv : server) (calls : list json) :
  alive st = true -> isChatTurn input = true ->
  useStream config options = true ->
  streamChat JSON_parse (stream_answer srv) = (calls, Resolved) ->
  let st' := iteration JSON_parse config options st input srv in
  let late := fragments (streamLate JSON_parse (stream_answer srv)) in
  messages st'
  = messages st ++ [userMessage (trim input);
                    assistantMessage (concat (fragments calls))] /\
  exists pre post,
    terminal st'
    = terminal st ++ pre ++ map Write (fragments calls) ++ post
      ++ map Write late /\
    written pre = [] /\ written post = [] /\
    written (skipn (length (terminal st)) (terminal st'))
    = concat (fragments calls) ++ concat late.
Proof.
  intros Ha Hc Hu Hs st' late. subst st' late.
  rewrite iteration_chat by assumption. unfold chatTurn.
  rewrite Hu, Hs, !aggregate_fragments. cbn [messages terminal fst]. split.
  - now rewrite <- app_assoc.
  - exists [Log Blank; Log (Rule true); SpinnerStart; SpinnerStop; Log Blank;
            WritePrefix],
           [Log Blank; Log Blank; Log (Rule false); Log Blank].
    split; [reflexivity|]. split; [reflexivity|]. split; [reflexivity|].
    rewrite skipn_app, skipn_all, Nat.sub_diag. cbn [skipn app].
    change (written (Log Blank :: Log (Rule true) :: SpinnerStart ::
                     SpinnerStop :: Log Blank :: WritePrefix :: ?l))
      with (written l).
    rewrite !written_app, !written_fragments. cbn [written app].
    now rewrite written_fragments.
Qed.

(** C6.  [/clear] leaves in the transcript the system message built from the
    [--system] option, and nothing else; without that option (or with an
    empty one) it leaves the transcript empty.  This is the transcript the
    session started with. *)
Theorem clear_restores_seed (st : session) (input : jsstring) (srv : server) :
  alive st = true -> dispatches CLEAR input = true ->
  let st' := iteration JSON_parse config options st input srv in
  messages st' = seed options /\
  match opt_system options with
  | Some (c :: r) => messages st' = [{| role := system; content := c :: r |}]
  | _ => messages st' = []
  end /\
  (truthy_str (apiKey config) = true ->
   messages st' = messages (start config options)).
Proof.
  intros Ha Hd st'.
  apply dispatches_inv in Hd as [Hv [Hs Hn]].
  assert (E : messages st' = seed options).
  { subst st'. rewrite iteration_slash by assumption.
    unfold slashCommand. fold (commandName input). now rewrite Hn. }
  split; [exact E|]. split.
  - rewrite E. unfold seed. now destruct (opt_system options) as [[|c r]|].
  - intros Hk. rewrite E. unfold start. now rewrite Hk.
Qed.

(** C10.  A line that the prompt accepts is dispatched as its trimmed form:
    the round does what it does on the line without its outer whitespace,
    and the user message of a chat turn holds that trimmed text. *)
Theorem input_is_trimmed (st : session) (input : jsstring) (srv : server) :
  validate input = true ->
  let st' := iteration JSON_parse config options st input srv in
  st' = iteration JSON_parse config options st (trim input) srv /\
  stripped (trim input) /\
  (exists ws1 ws2, input = ws1 ++ trim input ++ ws2 /\
                   forallb is_space ws1 = true /\
                   forallb is_space ws2 = true) /\
  (alive st = true -> startsWith SLASH (trim input) = false ->
   exists reply,
     messages st' = messages st ++ userMessage (trim input) :: reply /\
     Forall (fun m => role m = assistant) reply).
Proof.
  intros Hv st'. split; [|split; [|split]].
  - subst st'. unfold iteration, validate in *.
    now rewrite !trim_idempotent.
  - apply trim_stripped.
  - apply trim_decompose.
  - intros Ha Hs. subst st'.
    rewrite iteration_chat
      by (try assumption; unfold isChatTurn; now rewrite Hv, Hs).
    rewrite chatTurn_messages. eexists. split; [reflexivity|].
    destruct (replyText JSON_parse config options srv); repeat constructor.
Qed.

Lemma totalTokens_fold (msgs : list ChatMessage) (acc : Q) :
  (fold_left
     (fun sum msg => sum + inject_Z (Z.of_nat (length (content msg))) / 4)
     msgs acc
   == acc + inject_Z (Z.of_nat (totalLength msgs)) / 4)%Q.
Proof.
  revert acc. induction msgs as [|m msgs IH]; intros acc.
  - cbn. field.
  - cbn [fold_left totalLength fold_right]. rewrite IH.
    fold (totalLength msgs).
    rewrite Nat2Z.inj_add, inject_Z_plus. field.
Qed.

(** The sum of the quarter lengths, rounded up, is the total length divided
    by 4 and rounded up. *)
Lemma ceiling_totalTokens (msgs : list ChatMessage) :
  Qceiling (totalTokens msgs) = ceilDiv4 (Z.of_nat (totalLength msgs)).
Proof.
  unfold totalTokens. rewrite totalTokens_fold.
  generalize (Z.of_nat (totalLength msgs)); intros n.
  assert (E : (0 + inject_Z n / 4 == n # 4)%Q).
  { unfold Qeq, Qdiv, Qmult, Qplus, Qinv, inject_Z. cbn. ring. }
  rewrite E. unfold Qceiling, Qfloor, Qopp, ceilDiv4. cbn [Qnum Qden].
  Z.div_mod_to_equations. lia.
Qed.

(** C9.  [/tokens] prints the cumulative length of the message contents
    divided by 4 and rounded up, and leaves the transcript as it is. *)
Theorem tokens_prints_ceiling
    (st : session) (input : jsstring) (srv : server) :
  alive st = true -> dispatches TOKENS input = true ->
  let total := Z.of_nat (totalLength (messages st)) in
  let st' := iteration JSON_parse config options st input srv in
  terminal st' = terminal st ++ [Log (EstimatedTokens (ceilDiv4 total))] /\
  messages st' = messages st /\
  (4 * (ceilDiv4 total - 1) < total <= 4 * ceilDiv4 total)%Z.
Proof.
  intros Ha Hd total st'.
  apply dispatches_inv in Hd as [Hv [Hs Hn]].
  assert (E : st' = say [Log (EstimatedTokens (ceilDiv4 total))] st).
  { subst st' total. rewrite iteration_slash by assumption.
    unfold slashCommand. fold (commandName input). rewrite Hn.
    now rewrite ceiling_totalTokens. }
  rewrite E. cbn [say terminal messages]. repeat split.
  - unfold ceilDiv4. Z.div_mod_to_equations. lia.
  - unfold ceilDiv4. Z.div_mod_to_equations. lia.
Qed.

End SessionFacts.

(* ================================================================== *)
(** * The properties on concrete streams and sessions *)

(** C1, as stated, fails: the text of the greeting cut inside the JSON
    payload yields no fragment, where the uncut text yields [Hello]. *)
Lemma cut_inside_payload_loses_fragment :
  feed Json.parse [helloFirst; helloSecond] StreamEnd = ([], Resolved) /\
  feed Json.parse [helloFirst ++ helloSecond] StreamEnd
  = ([JString (lit "Hello")], Resolved) /\
  feed Json.parse [helloFirst; helloSecond] StreamEnd
  <> feed Json.parse [helloFirst ++ helloSecond] StreamEnd.
Proof. vm_compute. repeat split; discriminate. Qed.

(** The cut payload is no JSON text, whatever fuel the parser is given: its
    last string is not closed. *)
Example helloFirst_never_parses (fuel : nat) :
  Json.value fuel (trim (slice 6 helloFirst)) = None.
Proof. do 9 (destruct fuel as [|fuel]; [reflexivity|]). reflexivity. Qed.

Example hello_payload_parses :
  Json.parse (trim (slice 6 (helloFirst ++ wire "lo'}}]}")))
  = Some (JObject
            [(CHOICES,
              JArray
                [JObject
                   [(DELTA, JObject [(CONTENT, JString (lit "Hello"))])]])]).
Proof. reflexivity. Qed.

Lemma feed_line_aligned_witness :
  feed Json.parse helloByLines StreamEnd
  = feed Json.parse [concat helloByLines] StreamEnd.
Proof.
  apply (feed_line_aligned Json.parse helloByLines StreamEnd). reflexivity.
Defined.

Example helloByLines_decoded :
  feed Json.parse helloByLines StreamEnd
  = ([JString (lit "Hel"); JString (lit "lo")], Resolved).
Proof. reflexivity. Qed.

(** C4, as stated, fails: the sentinel in lower case does not end the
    stream; the line after it is decoded and the promise is left to the end
    of the stream, here an error. *)
Lemma lowercase_sentinel_is_not_the_sentinel :
  feed Json.parse [wire "data: [done]$" ++ deltaLine "late"]
       (StreamError (lit "reset"))
  = ([JString (lit "late")], Rejected (lit "reset")) /\
  feed Json.parse [wire "data: [DONE]$" ++ deltaLine "late"]
       (StreamError (lit "reset"))
  = ([], Resolved).
Proof. vm_compute. split; reflexivity. Qed.

Example lowercase_sentinel_never_parses (fuel : nat) :
  Json.value fuel (lit "[done]") = None.
Proof. do 3 (destruct fuel as [|fuel]; [reflexivity|]). reflexivity. Qed.

(** The listener stays attached: a fragment that arrives in a chunk after
    the one with the sentinel is still handed to [onChunk], after the promise
    has resolved. *)
Example listener_runs_after_sentinel :
  feed Json.parse [wire "data: [DONE]$"; deltaLine "late"] StreamEnd
  = ([], Resolved) /\
  allCalls Json.parse [wire "data: [DONE]$"; deltaLine "late"]
  = [JString (lit "late")].
Proof. vm_compute. split; reflexivity. Qed.

(** C7, as stated, fails: a payload that is JSON but not of the expected
    shape (its [choices] is an object with the key [0] where the shape has an
    array) is not skipped; the text it holds at the place of a fragment is
    handed to [onChunk].  So is a [content] that is no string but a
    number. *)
Lemma misshapen_payload_is_delivered :
  let line := wire "data: {'choices':{'0':{'delta':{'content':'hi'}}}}" in
  let count := wire "data: {'choices':[{'delta':{'content':5}}]}" in
  startsWith DATA_PREFIX line = true /\
  trim (slice 6 line) <> DONE /\
  (exists parsed,
     Json.parse (trim (slice 6 line)) = Some parsed /\
     expectedShape parsed = false) /\
  processLines Json.parse [line] = ([JString (lit "hi")], false) /\
  processLines Json.parse [line] <> processLines Json.parse [] /\
  (exists parsed,
     Json.parse (trim (slice 6 count)) = Some parsed /\
     expectedShape parsed = false) /\
  processLines Json.parse [count] = ([JNumber (lit "5")], false).
Proof.
  cbv zeta. split; [reflexivity|]. split; [discriminate|].
  split; [eexists; split; reflexivity|]. split; [reflexivity|].
  split; [discriminate|]. split; [eexists; split; reflexivity|].
  reflexivity.
Qed.

Lemma unusable_record_skipped_witness :
  let bad := wire "data: {'choices': oops" in
  let records := [(deltaRecord "b", lit "b"); (deltaRecord "c", lit "c")] in
  processLines Json.parse ([deltaRecord "a"] ++ bad :: [deltaRecord "b"])
  = processLines Json.parse ([deltaRecord "a"] ++ [deltaRecord "b"]) /\
  processLines Json.parse (bad :: map fst records ++ [wire "data: [DONE]"])
  = (flat_map delivery (map snd records)
     ++ fst (processLines Json.parse [wire "data: [DONE]"]),
     snd (processLines Json.parse [wire "data: [DONE]"])).
Proof.
  destruct (unusable_record_skipped Json.parse [deltaRecord "a"]
              [deltaRecord "b"] (wire "data: {'choices': oops") eq_refl
              ltac:(discriminate) eq_refl) as [H1 H2].
  split; [exact H1|]. apply H2.
  repeat constructor; try discriminate;
    (eexists; split; [reflexivity|]; split; reflexivity).
Defined.

Example unusable_record_then_two :
  processLines Json.parse
    [wire "data: {'choices': oops"; deltaRecord "b"; deltaRecord "c";
     wire "data: [DONE]"; deltaRecord "never"]
  = ([JString (lit "b"); JString (lit "c")], true).
Proof. reflexivity. Qed.

(** Payloads with nothing to deliver: text that is no JSON, [null], a value
    of another shape, an empty fragment, a zero. *)
Example unusable_payloads :
  forallb (unusable Json.parse)
    [wire "{'choices': oops"; wire "null"; wire "[1, 2]"; wire "{'id': 7}";
     wire "{'choices':[]}"; wire "{'choices':[{'delta':{}}]}";
     wire "{'choices':[{'delta':{'content':''}}]}";
     wire "{'choices':[{'delta':{'content':0.0e7}}]}";
     wire "{'choices':[{'delta':{'content':1e-400}}]}";
     wire "{'choices':'abc'}"]
  = true /\
  unusable Json.parse (wire "{'choices':[{'delta':{'content':5e-324}}]}")
  = false.
Proof. vm_compute. split; reflexivity. Qed.

Example malformed_record_between_two :
  onData Json.parse
    (deltaLine "a" ++ wire "data: {'choices': oops$data: null$"
     ++ deltaLine "b")
  = ([JString (lit "a"); JString (lit "b")], false).
Proof. reflexivity. Qed.

(** C2, as stated, fails: after a turn whose stream breaks once [Par] has
    been written, the transcript is not what it was before the turn; it has
    the user message of the turn. *)
Lemma failed_turn_changes_transcript :
  let st := start demoConfig plainOptions in
  let st' := iteration Json.parse demoConfig plainOptions st
                       (lit "Tell me") breaksAfterPar in
  callFails Json.parse demoConfig plainOptions breaksAfterPar = true /\
  written (terminal st') = lit "Par" /\
  messages st = [] /\
  messages st' = [userMessage (lit "Tell me")] /\
  messages st' <> messages st.
Proof. vm_compute. repeat split; discriminate. Qed.

Lemma failed_turn_keeps_user_message_witness :
  let st := start demoConfig plainOptions in
  let st' := iteration Json.parse demoConfig plainOptions st
                       (lit "Tell me") breaksAfterPar in
  messages st' = messages st ++ [userMessage (trim (lit "Tell me"))] /\
  exists request,
    sent (iteration Json.parse demoConfig plainOptions st'
                    (lit " and then? ") saysHello)
    = sent st' ++ [request] /\
    req_messages request
    = messages st ++ [userMessage (trim (lit "Tell me"));
                      userMessage (trim (lit " and then? "))].
Proof.
  apply (failed_turn_keeps_user_message Json.parse demoConfig plainOptions
           (start demoConfig plainOptions) (lit "Tell me")
           (lit " and then? ") breaksAfterPar saysHello); reflexivity.
Defined.

Lemma no_partial_assistant_message_witness :
  exists input srv,
    In (input, srv) [(lit "Tell me", breaksAfterPar); (lit "hi", saysHello)]
    /\ isChatTurn input = true /\
    replyText Json.parse demoConfig terseOptions srv
    = Some (content (assistantMessage (lit "Hello"))).
Proof.
  apply (no_partial_assistant_message Json.parse demoConfig terseOptions
           [(lit "Tell me", breaksAfterPar); (lit "hi", saysHello)]
           (assistantMessage (lit "Hello"))).
  - vm_compute. right; right; right; left. reflexivity.
  - reflexivity.
Defined.

(** C5: the code does not keep what is displayed and what is committed the
    same.  The stream says [Hel], then the sentinel, and in a later chunk
    [lo]: the promise resolves at the sentinel and the assistant message is
    committed as [Hel], while the listener, never detached, hands [lo] to the
    callback as well, which writes it: the terminal shows [Hello]. *)
Lemma late_fragment_written_not_committed :
  let chunks := [deltaLine "Hel" ++ wire "data: [DONE]$"; deltaLine "lo"] in
  let st := start demoConfig terseOptions in
  let st' := iteration Json.parse demoConfig terseOptions st (lit "hi")
                       (streams chunks StreamEnd) in
  allCalls Json.parse chunks = [JString (lit "Hel"); JString (lit "lo")] /\
  messages st'
  = messages st ++ [userMessage (lit "hi"); assistantMessage (lit "Hel")] /\
  written (skipn (length (terminal st)) (terminal st')) = lit "Hello".
Proof. vm_compute. repeat split; reflexivity. Qed.

(** On a stream that ends with its sentinel the two are the same. *)
Example hello_written_and_committed :
  let st := start demoConfig terseOptions in
  let st' := iteration Json.parse demoConfig terseOptions st (lit "hi")
                       saysHello in
  messages st'
  = messages st ++ [userMessage (lit "hi"); assistantMessage (lit "Hello")] /\
  written (skipn (length (terminal st)) (terminal st')) = lit "Hello".
Proof. vm_compute. split; reflexivity. Qed.

Lemma clear_restores_seed_witness :
  messages (iteration Json.parse demoConfig terseOptions twoTurns
                      (lit "/clear") saysHello)
  = [{| role := system; content := lit "You are terse." |}].
Proof.
  destruct (clear_restores_seed Json.parse demoConfig terseOptions twoTurns
              (lit "/clear") saysHello eq_refl eq_refl) as [H _].
  exact H.
Defined.

Example twoTurns_transcript :
  map role (messages twoTurns) = [system; user; assistant; user; assistant].
Proof. reflexivity. Qed.

(** C8: the code does not do what the claim, the help text and the printed
    confirmation say.  After [/provider claude] the terminal shows the
    switch, and the next request still names the provider the session
    started with. *)
Lemma provider_command_does_not_switch :
  let st := start demoConfig terseOptions in
  let st1 := iteration Json.parse demoConfig terseOptions st
                       (lit "/provider claude") saysHello in
  let st2 := iteration Json.parse demoConfig terseOptions st1
                       (lit "hello") saysHello in
  terminal st1 = terminal st ++ [Log (SwitchedTo (lit "claude"))] /\
  messages st1 = messages st /\
  map req_provider (sent st2) = [lit "chatgpt"].
Proof. vm_compute. repeat split; reflexivity. Qed.

Lemma tokens_prints_ceiling_witness :
  let total := Z.of_nat (totalLength (messages twoTurns)) in
  let st' := iteration Json.parse demoConfig terseOptions twoTurns
                       (lit " /Tokens ") saysHello in
  terminal st' = terminal twoTurns ++ [Log (EstimatedTokens (ceilDiv4 total))]
  /\ messages st' = messages twoTurns /\
  (4 * (ceilDiv4 total - 1) < total <= 4 * ceilDiv4 total)%Z.
Proof.
  apply (tokens_prints_ceiling Json.parse demoConfig terseOptions twoTurns
           (lit " /Tokens ") saysHello); reflexivity.
Defined.

(** The transcript of [twoTurns] holds 31 code units; [/tokens] prints 8,
    where rounding each message up on its own would give 11. *)
Example twoTurns_tokens :
  totalLength (messages twoTurns) = 31%nat /\
  Qceiling (totalTokens (messages twoTurns)) = 8%Z.
Proof. vm_compute. split; reflexivity. Qed.

Lemma input_is_trimmed_witness :
  let st := start demoConfig terseOptions in
  let input := wire "  hi there $" in
  let st' := iteration Json.parse demoConfig terseOptions st input saysHello in
  st' = iteration Json.parse demoConfig terseOptions st (trim input) saysHello
  /\ stripped (trim input) /\
  (exists ws1 ws2, input = ws1 ++ trim input ++ ws2 /\
                   forallb is_space ws1 = true /\
                   forallb is_space ws2 = true) /\
  (alive st = true -> startsWith SLASH (trim input) = false ->
   exists reply,
     messages st' = messages st ++ userMessage (trim input) :: reply /\
     Forall (fun m => role m = assistant) reply).
Proof.
  apply (input_is_trimmed Json.parse demoConfig terseOptions
           (start demoConfig terseOptions) (wire "  hi there $") saysHello).
  reflexivity.
Defined.

Example input_is_trimmed_example :
  trim (wire "  hi there $") = lit "hi there".
Proof. reflexivity. Qed.

(* ================================================================== *)
(** * Further properties of the decoder *)

Section DecoderMore.

Variable JSON_parse : jsstring -> option json.

Lemma split_closed_lines (lines : list jsstring) :
  Forall (fun l => ~ In 10 l) lines ->
  split 10 (closeLines [10] lines) = lines ++ [[]].
Proof.
  unfold closeLines. induction 1 as [|l lines Hl _ IH]; [reflexivity|].
  cbn [map concat]. rewrite <- app_assoc. cbn [app].
  rewrite split_app_sep, IH, (split_no_sep _ _ Hl). reflexivity.
Qed.

Lemma startsWith_snoc (p l : jsstring) (c : N) :
  ~ In c p -> startsWith p (l ++ [c]) = startsWith p l.
Proof.
  revert l. induction p as [|x p IH]; intros l Hc; [reflexivity|].
  destruct l as [|y l]; cbn [app startsWith].
  - destruct (N.eqb_spec x c) as [->|_]; [|reflexivity].
    exfalso. apply Hc. now left.
  - rewrite IH; [reflexivity|]. intros H. apply Hc. now right.
Qed.

Lemma trim_app_spaces (s ws : jsstring) :
  forallb is_space ws = true -> trim (s ++ ws) = trim s.
Proof.
  intros H. destruct (trim_decompose s) as [w1 [w2 [E [H1 H2]]]].
  rewrite E at 1. rewrite <- !app_assoc.
  apply trim_padded; [assumption| |apply trim_stripped].
  rewrite forallb_app. now rewrite H2, H.
Qed.

Lemma processLines_carriage_return (lines : list jsstring) :
  processLines JSON_parse (map (fun l => l ++ [13]) lines)
  = processLines JSON_parse lines.
Proof.
  induction lines as [|l lines IH]; [reflexivity|].
  cbn [map]. rewrite !processLines_cons, IH.
  rewrite startsWith_snoc
    by (cbv; intros [H|[H|[H|[H|[H|[H|[]]]]]]]; discriminate).
  destruct (startsWith DATA_PREFIX l) eqn:E; [|reflexivity].
  apply startsWith_length in E. unfold slice.
  rewrite skipn_app.
  replace (6 - length l)%nat with 0%nat by (cbn [length DATA_PREFIX] in E; lia).
  cbn [skipn]. now rewrite trim_app_spaces.
Qed.

(** X1.  A stream whose lines end in carriage return and line feed is
    decoded like the same lines ending in a line feed alone. *)
Theorem carriage_returns_tolerated (lines : list jsstring) :
  Forall (fun l => ~ In 10 l) lines ->
  onData JSON_parse (closeLines [13; 10] lines)
  = onData JSON_parse (closeLines [10] lines).
Proof.
  intros H. unfold onData.
  assert (E : closeLines [13; 10] lines
              = closeLines [10] (map (fun l => l ++ [13]) lines)).
  { unfold closeLines. rewrite map_map. f_equal.
    apply map_ext. intros l. now rewrite <- app_assoc. }
  rewrite E, !split_closed_lines; [|assumption|].
  - now rewrite !processLines_app, processLines_carriage_return.
  - rewrite Forall_map. eapply Forall_impl; [|exact H].
    intros l Hl Hin. apply in_app_or in Hin as [Hin|[Hin|[]]];
      [auto | discriminate].
Qed.

(** X2.  Lines that do not start with [data: ] (comments, event names,
    blank lines, [data:] without the space) change nothing: the listener
    does what it does on the data lines alone. *)
Theorem other_lines_ignored (lines : list jsstring) :
  processLines JSON_parse lines
  = processLines JSON_parse (filter (startsWith DATA_PREFIX) lines).
Proof.
  induction lines as [|l lines IH]; [reflexivity|].
  cbn [filter]. destruct (startsWith DATA_PREFIX l) eqn:E.
  - rewrite !processLines_cons, E, IH. reflexivity.
  - rewrite processLines_cons, E. exact IH.
Qed.

(** X4.  An [error] of the stream is reported exactly when no chunk before
    it held the sentinel; an error after the sentinel changes nothing. *)
Theorem error_after_sentinel_unreported
    (chunks : list jsstring) (m : jsstring) :
  snd (feed JSON_parse chunks (StreamError m))
  = (if existsb (fun chunk => snd (onData JSON_parse chunk)) chunks
     then Resolved else Rejected m) /\
  (existsb (fun chunk => snd (onData JSON_parse chunk)) chunks = true ->
   feed JSON_parse chunks (StreamError m) = feed JSON_parse chunks StreamEnd).
Proof.
  induction chunks as [|chunk rest [IH1 IH2]];
    [split; [reflexivity | discriminate]|].
  rewrite !feed_cons. cbn [existsb].
  destruct (snd (onData JSON_parse chunk)); cbn [orb snd]; [now split|].
  split; [exact IH1|]. intros H. now rewrite (IH2 H).
Qed.

End DecoderMore.

(* ================================================================== *)
(** * Further properties of the session loop *)

Section SessionMore.

Variable JSON_parse : jsstring -> option json.
Variable config : Config.
Variable options : Options.

Lemma run_not_alive (rounds : list (jsstring * server)) (st : session) :
  alive st = false -> run JSON_parse config options st rounds = st.
Proof.
  intros H. induction rounds as [|[input srv] rounds IH]; [reflexivity|].
  cbn [run]. unfold iteration. rewrite H. exact IH.
Qed.

(** What one round does to the requests sent. *)
Lemma iteration_sent_cases (st : session) (input : jsstring) (srv : server) :
  sent (iteration JSON_parse config options st input srv) = sent st \/
  isChatTurn input = true /\
  sent (iteration JSON_parse config options st input srv)
  = sent st ++
    [{| req_provider := provider config options;
        req_model := model config options;
        req_messages := messages st ++ [userMessage (trim input)];
        req_stream := if useStream config options then Some true else None |}].
Proof.
  destruct (alive st) eqn:Ha.
  2:{ left. unfold iteration. now rewrite Ha. }
  destruct (validate input) eqn:Hv.
  2:{ left. unfold iteration. now rewrite Ha, Hv. }
  destruct (startsWith SLASH (trim input)) eqn:Hs.
  - left. rewrite iteration_slash by assumption. apply slashCommand_sent.
  - right.
    assert (Hc : isChatTurn input = true)
      by (unfold isChatTurn; now rewrite Hv, Hs).
    split; [assumption|].
    rewrite iteration_chat by assumption. apply chatTurn_sent.
Qed.

Lemma chatTurn_alive (text : jsstring) (srv : server) (st : session) :
  alive (chatTurn JSON_parse config options text srv st) = alive st.
Proof.
  unfold chatTurn. destruct (useStream config options).
  - destruct (streamChat JSON_parse (stream_answer srv)) as [calls outcome].
    destruct (aggregate calls). now destruct outcome.
  - destruct (chat_answer srv) as [m|response]; [reflexivity|].
    now destruct (choices response).
Qed.

(** What one round does, by the kind of its line. *)
Lemma iteration_by_kind (st : session) (input : jsstring) (srv : server) :
  alive st = true ->
  let st' := iteration JSON_parse config options st input srv in
  match lineKindOf input with
  | Refused | Local =>
      messages st' = messages st /\ sent st' = sent st /\ alive st' = true
  | Leaves =>
      messages st' = messages st /\ sent st' = sent st /\ alive st' = false
  | Clears =>
      messages st' = seed options /\ sent st' = sent st /\ alive st' = true
  | Asks text =>
      messages st'
      = messages st ++ render (text, replyText JSON_parse config options srv)
      /\ sent st'
         = sent st
           ++ [requestFor config options (messages st ++ [userMessage text])]
      /\ alive st' = true
  end.
Proof.
  intros Ha st'. subst st'. unfold lineKindOf.
  destruct (validate input) eqn:Hv; cbn [negb].
  2:{ unfold iteration. rewrite Ha, Hv. cbn [negb]. auto. }
  destruct (startsWith SLASH (trim input)) eqn:Hs.
  - rewrite iteration_slash by assumption.
    unfold slashCommand. fold (commandName input).
    destruct (str_eqb (commandName input) HELP) eqn:Eh.
    { apply str_eqb_eq in Eh. rewrite Eh. cbn. auto. }
    destruct (str_eqb (commandName input) EXIT
              || str_eqb (commandName input) QUIT); [cbn; auto|].
    destruct (str_eqb (commandName input) CLEAR); [cbn; auto|].
    repeat match goal with
           | |- context [if ?b then _ else _] => destruct b
           | |- context [match ?x with _ => _ end] => destruct x
           end; cbn; auto.
  - assert (Hc : isChatTurn input = true)
      by (unfold isChatTurn; now rewrite Hv, Hs).
    rewrite iteration_chat by assumption.
    rewrite chatTurn_messages, chatTurn_sent, chatTurn_alive.
    split; [|split; [reflexivity | exact Ha]].
    unfold render. now destruct (replyText JSON_parse config options srv).
Qed.

(** The transcript and the requests of a session, from a state whose
    transcript is the seed and the exchanges [turns]. *)
Lemma run_history (rounds : list (jsstring * server)) (st : session)
    (turns : list (jsstring * option jsstring)) :
  alive st = true ->
  messages st = seed options ++ flat_map render turns ->
  messages (run JSON_parse config options st rounds)
  = seed options
    ++ flat_map render
         (exchanges (replyText JSON_parse config options) rounds turns) /\
  sent (run JSON_parse config options st rounds)
  = sent st
    ++ map (requestFor config options)
         (contexts (replyText JSON_parse config options) (seed options)
                   rounds turns).
Proof.
  revert st turns. induction rounds as [|[input srv] rounds IH];
    intros st turns Ha H.
  - cbn [run exchanges contexts map]. now rewrite app_nil_r.
  - cbn [run exchanges contexts].
    pose proof (iteration_by_kind st input srv Ha) as K. cbv zeta in K.
    destruct (lineKindOf input) as [| | | |text].
    + destruct K as [Km [Ks Ka]]. rewrite <- Ks. apply IH; congruence.
    + destruct K as [Km [Ks Ka]]. rewrite run_not_alive by assumption.
      cbn [map]. rewrite app_nil_r. split; congruence.
    + destruct K as [Km [Ks Ka]]. rewrite <- Ks.
      apply IH; [assumption|]. rewrite Km. cbn [flat_map].
      now rewrite app_nil_r.
    + destruct K as [Km [Ks Ka]]. rewrite <- Ks. apply IH; congruence.
    + destruct K as [Km [Ks Ka]].
      destruct (IH (iteration JSON_parse config options st input srv)
                   (turns ++ [(text, replyText JSON_parse config options srv)])
                   Ka) as [IHm IHs].
      { rewrite Km, H, flat_map_app, <- app_assoc. cbn [flat_map].
        now rewrite app_nil_r. }
      split; [exact IHm|]. rewrite IHs, Ks, <- app_assoc. cbn [map app].
      f_equal. f_equal. f_equal. now rewrite H, <- app_assoc.
Qed.

(** The chat enters its loop when a key is stored and the header fits the
    terminal; the loop then starts from [Chat.start]. *)
Lemma chatEntry_alive (columns : option Z) :
  alive (chatEntry columns config options) = true ->
  truthy_str (apiKey config) = true /\
  chatEntry columns config options = start config options.
Proof.
  unfold chatEntry. destruct (truthy_str (apiKey config)) eqn:Hk.
  - destruct (Terminal.formatChatBox columns HEADER_TITLE None);
      [|discriminate].
    destruct (Terminal.createSeparator columns Terminal.HLINE None);
      [auto | discriminate].
  - unfold start. rewrite Hk. discriminate.
Qed.

(** X5.  In a chat session that has entered its loop, the transcript is at
    any time the system message of the [--system] option, if any, followed by
    the exchanges since the start or the last [/clear], in the order of their
    lines: for each question its user message, the line trimmed, directly
    followed by the assistant message with the reply exactly when the call of
    that round succeeded. *)
Theorem transcript_is_seed_then_exchanges
    (columns : option Z) (rounds : list (jsstring * server)) :
  alive (chatEntry columns config options) = true ->
  messages (chatCommandOn columns JSON_parse config options rounds)
  = seed options
    ++ flat_map render
         (exchanges (replyText JSON_parse config options) rounds []).
Proof.
  intros Ha. unfold chatCommandOn.
  destruct (chatEntry_alive columns Ha) as [Hk E]. rewrite E in *.
  apply run_history; [exact Ha|].
  unfold start. rewrite Hk. cbn [messages flat_map]. now rewrite app_nil_r.
Qed.

(** X6.  An accepted line that starts with [/] never reaches the service:
    no request is sent, and the transcript is left as it is unless the
    command is [clear], which resets it to the seed. *)
Theorem slash_lines_stay_local
    (st : session) (input : jsstring) (srv : server) :
  validate input = true -> startsWith SLASH (trim input) = true ->
  let st' := iteration JSON_parse config options st input srv in
  sent st' = sent st /\
  (commandName input <> CLEAR -> messages st' = messages st) /\
  (commandName input = CLEAR -> alive st = true ->
   messages st' = seed options).
Proof.
  intros Hv Hs st'. subst st'.
  destruct (alive st) eqn:Ha.
  2:{ unfold iteration. rewrite Ha. repeat split; auto. discriminate. }
  rewrite iteration_slash by assumption.
  split; [apply slashCommand_sent|].
  unfold slashCommand. fold (commandName input). split.
  - intros Hn. apply str_eqb_neq in Hn. rewrite Hn.
    repeat match goal with
           | |- context [if ?b then _ else _] => destruct b
           | |- context [match ?x with _ => _ end] => destruct x
           end; reflexivity.
  - intros Hn _. now rewrite Hn.
Qed.

(** X7.  The requests of a chat session that has entered its loop are,
    in order, one for each question: each carries the provider and the model
    fixed at the start, and as context the system message of the [--system]
    option, if any, then the exchanges before the question since the start or
    the last [/clear], then the user message of the question itself. *)
Theorem requests_carry_the_history
    (columns : option Z) (rounds : list (jsstring * server)) :
  alive (chatEntry columns config options) = true ->
  sent (chatCommandOn columns JSON_parse config options rounds)
  = map (requestFor config options)
        (contexts (replyText JSON_parse config options) (seed options)
                  rounds []).
Proof.
  intros Ha. unfold chatCommandOn.
  destruct (chatEntry_alive columns Ha) as [Hk E]. rewrite E in *.
  assert (H0 : messages (start config options)
               = seed options ++ flat_map render []).
  { unfold start. rewrite Hk. cbn [messages flat_map]. now rewrite app_nil_r. }
  destruct (run_history rounds _ [] Ha H0) as [_ Hs]. rewrite Hs.
  unfold start. now rewrite Hk.
Qed.

End SessionMore.

(** X8.  [ask] sends the question as it is given, after the system message
    if any; and in a live chat session whose transcript is the seed (one
    that has just entered its loop or has just been cleared), a line that the
    loop takes as a question makes the round send the very request that [ask]
    sends for the trimmed line. *)
Theorem ask_sends_what_chat_sends
    (JSON_parse : jsstring -> option json)
    (config : Settings.ChatInstanceConfig) (options : Options)
    (format : option jsstring) (question : jsstring) (srv srv' : server) :
  truthy_str (Settings.apiKey config) = true ->
  let cfg := Settings.forChat config in
  Ask.request (Ask.askCommand JSON_parse config options format question srv)
  = Some (requestFor cfg options (seed options ++ [userMessage question])) /\
  forall st,
    alive st = true -> messages st = seed options ->
    isChatTurn question = true ->
    sent (iteration JSON_parse cfg options st question srv')
    = sent st
      ++ match Ask.request (Ask.askCommand JSON_parse config options format
                                           (trim question) srv) with
         | Some r => [r]
         | None => []
         end.
Proof.
  intros Hk cfg.
  assert (Hreq : forall q,
             Ask.request (Ask.askCommand JSON_parse config options format
                                         q srv)
             = Some (requestFor cfg options (seed options ++ [userMessage q]))).
  { intros q. unfold Ask.askCommand. rewrite Hk. cbn [negb].
    fold cfg. unfold requestFor. destruct (useStream cfg options).
    - destruct (streamChat JSON_parse (stream_answer srv)) as [calls out].
      destruct (aggregate calls) as [writes response].
      now destruct out.
    - destruct (chat_answer srv) as [m|response]; [reflexivity|].
      now destruct (choices response). }
  split; [apply Hreq|].
  intros st Ha Hm Hc. rewrite Hreq.
  rewrite iteration_chat, chatTurn_sent by assumption.
  now rewrite Hm.
Qed.

(* ================================================================== *)
(** * [TerminalUtils] *)

Section TerminalFacts.

Import Terminal.

Lemma wrapWords_nonempty (maxWidth : Z) (words lines : list jsstring)
    (currentLine : jsstring) :
  Forall (fun l => l <> []) lines ->
  Forall (fun l => l <> []) (wrapWords maxWidth words lines currentLine).
Proof.
  revert lines currentLine.
  induction words as [|word rest IH]; intros lines cur H; cbn [wrapWords].
  - destruct cur; [exact H|]. apply Forall_app. split; [exact H|].
    constructor; [discriminate | constructor].
  - destruct (_ <=? maxWidth)%Z; apply IH; [exact H|].
    destruct cur; [exact H|]. apply Forall_app. split; [exact H|].
    constructor; [discriminate | constructor].
Qed.

Lemma wrapWords_blank (maxWidth : Z) (words lines : list jsstring) :
  Forall (fun w => w = []) words -> wrapWords maxWidth words lines [] = lines.
Proof.
  induction 1 as [|word rest -> _ IH]; [reflexivity|].
  cbn [wrapWords length app]. now destruct (_ <=? maxWidth)%Z.
Qed.

Lemma split_blank (sep : N) (s : jsstring) :
  Forall (fun w => w = []) (split sep s) <-> Forall (fun c => c = sep) s.
Proof.
  induction s as [|c s IH]; cbn [split].
  - split; intros _; repeat constructor.
  - destruct (N.eqb_spec c sep) as [->|Hc].
    + split; intros H; inversion H; subst; constructor; auto;
        now apply IH.
    + split; intros H.
      * exfalso. destruct (split sep s); inversion H; discriminate.
      * inversion H; subst. contradiction.
Qed.

Lemma filter_nonempty_nil (words : list jsstring) :
  filter (fun w => match w with [] => false | _ :: _ => true end) words = []
  -> Forall (fun w => w = []) words.
Proof.
  induction words as [|w words IH]; [constructor|].
  cbn [filter]. destruct w; [|discriminate].
  intros H. constructor; auto.
Qed.

Lemma split_pieces_no_sep (sep : N) (s : jsstring) :
  Forall (fun w => ~ In sep w) (split sep s).
Proof.
  induction s as [|c s IH]; cbn [split].
  - constructor; [intros [] | constructor].
  - destruct (N.eqb_spec c sep) as [->|Hc].
    + constructor; [intros [] | exact IH].
    + destruct (split sep s) as [|l ls].
      * constructor; [|constructor]. intros [H|[]]. congruence.
      * inversion IH as [|? ? Hl Hls]; subst.
        constructor; [|exact Hls].
        intros [H|H]; [congruence | auto].
Qed.

Lemma nonemptyWords_word (w : jsstring) :
  ~ In 32 w ->
  nonemptyWords w = match w with [] => [] | _ :: _ => [w] end.
Proof.
  intros H. unfold nonemptyWords. rewrite (split_no_sep _ _ H).
  now destruct w.
Qed.

Lemma nonemptyWords_join (a b : jsstring) :
  nonemptyWords (a ++ SPACE ++ b) = nonemptyWords a ++ nonemptyWords b.
Proof.
  unfold nonemptyWords. cbn [SPACE app].
  now rewrite split_app_sep, filter_app.
Qed.

Lemma wrapWords_words (maxWidth : Z) (words lines : list jsstring)
    (currentLine : jsstring) :
  Forall (fun w => ~ In 32 w) words ->
  flat_map nonemptyWords (wrapWords maxWidth words lines currentLine)
  = flat_map nonemptyWords lines ++ nonemptyWords currentLine
    ++ filter (fun w => match w with [] => false | _ :: _ => true end) words.
Proof.
  revert lines currentLine.
  induction words as [|word rest IH]; intros lines cur Hw; cbn [wrapWords].
  - cbn [filter]. rewrite app_nil_r. destruct cur as [|c cur].
    + cbn. now rewrite app_nil_r.
    + rewrite flat_map_app. cbn [flat_map]. now rewrite app_nil_r.
  - inversion Hw as [|? ? Hword Hrest]; subst.
    assert (Hcons : nonemptyWords word
                    ++ filter (fun w => match w with
                                        | [] => false
                                        | _ :: _ => true
                                        end) rest
                    = filter (fun w => match w with
                                       | [] => false
                                       | _ :: _ => true
                                       end) (word :: rest)).
    { rewrite (nonemptyWords_word _ Hword). now destruct word. }
    destruct (_ <=? maxWidth)%Z; rewrite IH by assumption.
    + rewrite <- Hcons. destruct cur as [|c cur].
      * reflexivity.
      * rewrite nonemptyWords_join. now rewrite <- !app_assoc.
    + rewrite <- Hcons. destruct cur as [|c cur].
      * reflexivity.
      * rewrite flat_map_app. cbn [flat_map].
        now rewrite app_nil_r, <- !app_assoc.
Qed.

(** X9.  [wrapText] returns no empty line; and it returns no line at all
    exactly when the text is empty or made of spaces only. *)
Theorem wrapText_no_empty_line
    (columns : option Z) (text : jsstring) (width : option Z) :
  Forall (fun l => l <> []) (wrapText columns text width) /\
  (wrapText columns text width = [] <-> Forall (fun c => c = 32) text).
Proof.
  split; [apply wrapWords_nonempty; constructor|].
  unfold wrapText. split.
  - intros H. apply split_blank, filter_nonempty_nil.
    pose proof (wrapWords_words
                  (num_or width (Z.min (getTerminalWidth columns - 8) 100))
                  (split 32 text) [] [] (split_pieces_no_sep 32 text)) as W.
    rewrite H in W. cbn in W. now symmetry.
  - intros H. apply wrapWords_blank. now apply split_blank.
Qed.

Lemma wrapWords_width (maxWidth : Z) (all words lines : list jsstring)
    (currentLine : jsstring) :
  let fits l := (Z.of_nat (length l) <= maxWidth)%Z \/ In l all in
  incl words all -> Forall fits lines ->
  (currentLine = [] \/ fits currentLine) ->
  Forall fits (wrapWords maxWidth words lines currentLine).
Proof.
  intros fits. revert lines currentLine.
  induction words as [|word rest IH]; intros lines cur Hw Hl Hc;
    cbn [wrapWords].
  - destruct cur as [|c cur]; [exact Hl|]. apply Forall_app.
    split; [exact Hl|]. constructor; [|constructor].
    destruct Hc as [Hc|Hc]; [discriminate | exact Hc].
  - assert (Hrest : incl rest all)
      by (intros x Hx; apply Hw; now right).
    destruct (Z.leb_spec (Z.of_nat (length cur) + Z.of_nat (length word) + 1)
                         maxWidth) as [Hfit|Hfit].
    + apply IH; [exact Hrest | exact Hl |]. right. left.
      rewrite !length_app. destruct cur; cbn [length SPACE] in *; lia.
    + apply IH; [exact Hrest | |].
      * destruct cur as [|c cur]; [exact Hl|]. apply Forall_app.
        split; [exact Hl|]. constructor; [|constructor].
        destruct Hc as [Hc|Hc]; [discriminate | exact Hc].
      * right. right. apply Hw. now left.
Qed.

(** X10.  A line of [wrapText] is at most [maxWidth] code units long, or it
    is a single word of the text that no line could hold. *)
Theorem wrapText_width
    (columns : option Z) (text : jsstring) (width : option Z)
    (l : jsstring) :
  In l (wrapText columns text width) ->
  let maxWidth := num_or width (Z.min (getTerminalWidth columns - 8) 100) in
  (Z.of_nat (length l) <= maxWidth)%Z \/
  (In l (split 32 text) /\ (maxWidth <= Z.of_nat (length l))%Z).
Proof.
  intros Hin maxWidth.
  pose proof (wrapWords_width maxWidth (split 32 text) (split 32 text) [] [])
    as H. cbv zeta in H.
  specialize (H (incl_refl _) (Forall_nil _) (or_introl eq_refl)).
  rewrite Forall_forall in H. specialize (H l Hin).
  destruct (Z.le_gt_cases (Z.of_nat (length l)) maxWidth) as [Hle|Hgt];
    [now left|].
  right. destruct H as [H|H]; [lia|]. split; [exact H | lia].
Qed.

(** X11.  [wrapText] keeps every word of the text, in order, and adds
    none: the words of its lines, one line after the other, are the words of
    the text. *)
Theorem wrapText_keeps_words
    (columns : option Z) (text : jsstring) (width : option Z) :
  flat_map nonemptyWords (wrapText columns text width) = nonemptyWords text.
Proof.
  unfold wrapText. rewrite wrapWords_words by apply split_pieces_no_sep.
  reflexivity.
Qed.

Lemma repeat_length (s : jsstring) (count : Z) (out : jsstring) :
  repeat s count = Some out ->
  (0 <= count)%Z /\ length out = (Z.to_nat count * length s)%nat.
Proof.
  unfold repeat. destruct (Z.ltb_spec count 0) as [|H]; [discriminate|].
  intros [= <-]. split; [exact H|].
  induction (Z.to_nat count) as [|n IH]; [reflexivity|].
  cbn [List.repeat concat]. rewrite length_app, IH. reflexivity.
Qed.

Lemma repeat_fails (s : jsstring) (count : Z) :
  repeat s count = None <-> (count < 0)%Z.
Proof.
  unfold repeat. destruct (Z.ltb_spec count 0); split;
    intros; try reflexivity; try assumption; try discriminate; lia.
Qed.

(** X12.  [createSeparator] throws exactly when the terminal width is below
    4; otherwise the separator is the character repeated
    [min(width - 4, 80)] times, at most 80 times. *)
Theorem createSeparator_length
    (columns : option Z) (char : jsstring) (width : option Z) :
  let terminalWidth := num_or width (getTerminalWidth columns) in
  let count := Z.to_nat (Z.min (terminalWidth - 4) 80) in
  createSeparator columns char width
  = (if (terminalWidth <? 4)%Z then None
     else Some (concat (List.repeat char count))) /\
  (count <= 80)%nat /\
  length (concat (List.repeat char count)) = (count * length char)%nat.
Proof.
  intros tw count. unfold createSeparator, repeat. fold tw. split; [|split].
  - destruct (Z.ltb_spec (Z.min (tw - 4) 80) 0);
      destruct (Z.ltb_spec tw 4); try lia; reflexivity.
  - subst count. lia.
  - induction count as [|n IH]; [reflexivity|].
    cbn [List.repeat concat]. rewrite length_app, IH. reflexivity.
Qed.

(** The chat's header box fits exactly when the box is at least 25 wide,
    that is on a terminal of at least 29 columns; the separator under it then
    fits as well. *)
Lemma header_fits (columns : option Z) :
  (formatChatBox columns HEADER_TITLE None <> None <->
   (25 <= boxWidthOf columns None)%Z) /\
  (formatChatBox columns HEADER_TITLE None <> None ->
   createSeparator columns HLINE None <> None).
Proof.
  unfold formatChatBox, createSeparator, boxWidthOf.
  set (tw := num_or None (getTerminalWidth columns)).
  set (bw := Z.min (tw - 4) 50).
  change (Z.of_nat (length HEADER_TITLE)) with 23%Z.
  destruct (repeat HLINE (bw - 2)) as [bar|] eqn:Eb.
  2:{ apply repeat_fails in Eb. split; [split; [congruence | lia]|congruence]. }
  apply repeat_length in Eb as [Hb _].
  destruct (repeat SPACE (Z.max 0 ((bw - 23 - 2) / 2))) as [before|] eqn:El.
  2:{ apply repeat_fails in El. lia. }
  destruct (repeat SPACE (bw - 2 - Z.max 0 ((bw - 23 - 2) / 2) - 23))
    as [after|] eqn:Er.
  - apply repeat_length in Er as [Hr _]. split.
    + split; [|discriminate]. intros _.
      destruct (Z.lt_ge_cases bw 25) as [Hlt|]; [|assumption]. exfalso.
      assert (Hneg : ((bw - 23 - 2) / 2 < 0)%Z)
        by (apply Z.div_lt_upper_bound; lia).
      lia.
    + intros _. destruct (repeat HLINE (Z.min (tw - 4) 80)) eqn:Es;
        [discriminate|]. apply repeat_fails in Es.
      assert (Hge : (25 <= bw)%Z).
      { destruct (Z.lt_ge_cases bw 25) as [Hlt|]; [|assumption]. exfalso.
        assert (Hneg : ((bw - 23 - 2) / 2 < 0)%Z)
          by (apply Z.div_lt_upper_bound; lia).
        lia. }
      lia.
  - apply repeat_fails in Er. split; [|congruence].
    split; [congruence|]. intros Hge. exfalso.
    assert (H2 : ((bw - 23 - 2) / 2 <= bw - 23 - 2)%Z)
      by (apply Z.div_le_upper_bound; lia).
    assert (H0 : (0 <= (bw - 23 - 2) / 2)%Z) by (apply Z.div_pos; lia).
    lia.
Qed.

(** The chat enters its loop exactly when a key is stored and the header
    box fits the terminal. *)
Lemma chatEntry_enters (columns : option Z) (config : Config)
    (options : Options) :
  alive (chatEntry columns config options)
  = truthy_str (apiKey config) && (25 <=? boxWidthOf columns None)%Z.
Proof.
  destruct (header_fits columns) as [Hf Hs]. unfold chatEntry.
  destruct (truthy_str (apiKey config)) eqn:Hk; cbn [andb].
  - destruct (formatChatBox columns HEADER_TITLE None) eqn:Ef.
    + destruct (createSeparator columns HLINE None) eqn:Es.
      * unfold start. rewrite Hk. cbn [alive]. symmetry.
        apply Z.leb_le, Hf. discriminate.
      * exfalso. now apply Hs.
    + cbn [stopped alive].
      destruct (Z.leb_spec 25 (boxWidthOf columns None)) as [H|];
        [|reflexivity].
      exfalso. now apply Hf in H.
  - unfold start. now rewrite Hk.
Qed.

(** X13.  [formatChatBox] throws exactly when the title and its two
    borders do not fit the box: the title must be at most [boxWidth - 2]
    code units long, [boxWidth] being [min(width - 4, 50)]. *)
Theorem formatChatBox_fails_iff
    (columns : option Z) (title : jsstring) (width : option Z) :
  formatChatBox columns title width = None <->
  (boxWidthOf columns width < Z.of_nat (length title) + 2)%Z.
Proof.
  unfold formatChatBox, boxWidthOf.
  set (bw := Z.min (num_or width (getTerminalWidth columns) - 4) 50).
  set (len := Z.of_nat (length title)).
  assert (Hlen : (0 <= len)%Z) by (subst len; lia).
  destruct (repeat HLINE (bw - 2)) as [bar|] eqn:Eb.
  2:{ apply repeat_fails in Eb. split; [lia | reflexivity]. }
  apply repeat_length in Eb as [Hb _].
  destruct (repeat SPACE (Z.max 0 ((bw - len - 2) / 2))) as [before|] eqn:El.
  2:{ apply repeat_fails in El. lia. }
  destruct (repeat SPACE (bw - 2 - Z.max 0 ((bw - len - 2) / 2) - len))
    as [after|] eqn:Er.
  - apply repeat_length in Er as [Hr _]. split; [discriminate|].
    intros H. exfalso.
    assert (Hneg : ((bw - len - 2) / 2 < 0)%Z)
      by (apply Z.div_lt_upper_bound; lia).
    lia.
  - apply repeat_fails in Er. split; [|reflexivity]. intros _.
    destruct (Z.lt_ge_cases bw (len + 2)) as [|Hge]; [assumption|].
    exfalso.
    assert (H2 : ((bw - len - 2) / 2 <= bw - len - 2)%Z)
      by (apply Z.div_le_upper_bound; lia).
    assert (H0 : (0 <= (bw - len - 2) / 2)%Z)
      by (apply Z.div_pos; lia).
    lia.
Qed.

(** X14.  When [formatChatBox] returns, its three lines all have
    [boxWidth] code units, and the title stands between two runs of spaces of
    which the right one is as long as the left one or one longer. *)
Theorem formatChatBox_shape
    (columns : option Z) (title : jsstring) (width : option Z)
    (lines : list jsstring) :
  formatChatBox columns title width = Some lines ->
  exists top mid bottom before after,
    lines = [top; mid; bottom] /\
    Z.of_nat (length top) = boxWidthOf columns width /\
    Z.of_nat (length mid) = boxWidthOf columns width /\
    Z.of_nat (length bottom) = boxWidthOf columns width /\
    mid = [9474] ++ List.repeat 32 before ++ title
          ++ List.repeat 32 after ++ [9474] /\
    (after = before \/ after = S before).
Proof.
  unfold formatChatBox, boxWidthOf.
  set (bw := Z.min (num_or width (getTerminalWidth columns) - 4) 50).
  set (len := Z.of_nat (length title)).
  set (padding := Z.max 0 ((bw - len - 2) / 2)).
  destruct (repeat HLINE (bw - 2)) as [bar|] eqn:Eb; [|discriminate].
  destruct (repeat SPACE padding) as [before|] eqn:El; [|discriminate].
  destruct (repeat SPACE (bw - 2 - padding - len)) as [after|] eqn:Er;
    [|discriminate].
  intros [= <-].
  assert (Hspaces : forall n out,
             repeat SPACE n = Some out -> out = List.repeat 32 (Z.to_nat n)).
  { intros n out. unfold repeat. destruct (n <? 0)%Z; [discriminate|].
    intros [= <-]. induction (Z.to_nat n) as [|k IH]; [reflexivity|].
    cbn [List.repeat concat SPACE app]. now rewrite IH. }
  pose proof (repeat_length _ _ _ Eb) as [Hb Lb].
  pose proof (repeat_length _ _ _ El) as [Hl Ll].
  pose proof (repeat_length _ _ _ Er) as [Hr Lr].
  cbn [length HLINE SPACE] in Lb, Ll, Lr.
  exists ([9484] ++ bar ++ [9488]),
         ([9474] ++ before ++ title ++ after ++ [9474]),
         ([9492] ++ bar ++ [9496]),
         (Z.to_nat padding), (Z.to_nat (bw - 2 - padding - len)).
  assert (Hdiv : (2 * ((bw - len - 2) / 2) <= bw - len - 2
                  < 2 * ((bw - len - 2) / 2) + 2)%Z).
  { pose proof (Z.div_mod (bw - len - 2) 2 ltac:(lia)) as Hdm.
    pose proof (Z.mod_pos_bound (bw - len - 2) 2 ltac:(lia)). lia. }
  repeat split.
  - rewrite !length_app, Lb. cbn [length]. lia.
  - rewrite !length_app, Ll, Lr. cbn [length]. fold len. lia.
  - rewrite !length_app, Lb. cbn [length]. lia.
  - now rewrite (Hspaces _ _ El), (Hspaces _ _ Er).
  - subst padding. lia.
Qed.

End TerminalFacts.

(* ================================================================== *)
(** * API keys, [login] and the [config] command *)

Section KeyFacts.

Import Settings.

Lemma alnum_not_space (c : N) : is_alnum c = true -> is_space c = false.
Proof.
  unfold is_alnum, is_space. intros H.
  repeat rewrite ?orb_true_iff, ?andb_true_iff, ?N.leb_le in H.
  repeat rewrite ?orb_false_iff, ?andb_false_iff, ?N.eqb_neq,
    ?N.leb_gt.
  repeat split; lia.
Qed.

Lemma startsWith_split (p s : jsstring) :
  startsWith p s = true -> s = p ++ skipn (length p) s.
Proof.
  revert s. induction p as [|x p IH]; intros s H; [reflexivity|].
  destruct s as [|y s]; [discriminate|]. cbn [startsWith] in H.
  apply andb_true_iff in H as [Hx H]. apply N.eqb_eq in Hx. subst y.
  cbn [length skipn app]. f_equal. now apply IH.
Qed.

Lemma nonspace_stripped (s : jsstring) :
  (forall c, In c s -> is_space c = false) -> stripped s.
Proof.
  intros H. split; intros c r E; apply H; subst s.
  - now left.
  - apply in_or_app. right. now left.
Qed.

(** A key of the valid format: [ci_] and at least 20 letters or digits,
    hence at least 23 code units, none of them whitespace. *)
Lemma valid_key_shape (key : jsstring) :
  validateApiKey key = true ->
  (23 <= length key)%nat /\
  (forall c, In c key -> is_space c = false) /\
  trim key = key.
Proof.
  unfold validateApiKey, slice. intros H.
  apply andb_true_iff in H as [H Hlen]. apply andb_true_iff in H as [Hp Ha].
  apply Nat.leb_le in Hlen.
  pose proof (startsWith_split _ _ Hp) as E. cbn [length CI] in E.
  assert (Hall : forall c, In c key -> is_space c = false).
  { intros c Hc. rewrite E in Hc. apply in_app_or in Hc as [Hc|Hc].
    - destruct Hc as [<-|[<-|[<-|[]]]]; reflexivity.
    - rewrite forallb_forall in Ha. now apply alnum_not_space, Ha. }
  split; [|split; [exact Hall|]].
  - rewrite E, length_app. cbn [length CI]. lia.
  - now apply trim_fix, nonspace_stripped.
Qed.

Lemma padded_key_invalid (ws1 key ws2 : jsstring) :
  forallb is_space ws1 = true -> forallb is_space ws2 = true ->
  ws1 ++ ws2 <> [] -> validateApiKey (ws1 ++ key ++ ws2) = false.
Proof.
  intros H1 H2 Hne.
  destruct (validateApiKey (ws1 ++ key ++ ws2)) eqn:E; [|reflexivity].
  exfalso. apply valid_key_shape in E as [_ [Hall _]].
  rewrite forallb_forall in H1, H2.
  destruct ws1 as [|c ws1].
  - destruct ws2 as [|c ws2]; [now apply Hne|].
    assert (Hc : is_space c = false).
    { apply Hall. cbn [app]. apply in_or_app. right. now left. }
    rewrite (H2 c) in Hc; [discriminate | now left].
  - assert (Hc : is_space c = false) by (apply Hall; now left).
    rewrite (H1 c) in Hc; [discriminate | now left].
Qed.

(** X15.  At the prompt of [login], a key is taken after trimming; with
    [--key] it is taken as given.  A key of the valid format with whitespace
    around it is accepted when typed at the prompt, and is refused, with the
    configuration left as it was, when given with [--key]. *)
Theorem padded_key_prompt_and_option
    (ws1 key ws2 : jsstring) (attempts : list jsstring)
    (reply : Auth.user_reply) (c : ChatInstanceConfig) :
  validateApiKey key = true ->
  forallb is_space ws1 = true -> forallb is_space ws2 = true ->
  ws1 ++ ws2 <> [] ->
  Auth.promptAccepts (ws1 ++ key ++ ws2) = true /\
  Auth.loginCommand None ((ws1 ++ key ++ ws2) :: attempts) reply c
  = Auth.loginCommand (Some key) [] reply c /\
  Auth.loginCommand (Some (ws1 ++ key ++ ws2)) attempts reply c
  = {| Auth.config := c; Auth.shown := [Auth.InvalidFormat];
       Auth.ended := Auth.Exited 1 |}.
Proof.
  intros Hk H1 H2 Hne.
  pose proof (valid_key_shape _ Hk) as [Hlen [Hall Htrim]].
  assert (Ht : trim (ws1 ++ key ++ ws2) = key).
  { apply trim_padded; try assumption. now apply nonspace_stripped. }
  assert (Hp : Auth.promptAccepts (ws1 ++ key ++ ws2) = true).
  { unfold Auth.promptAccepts. rewrite Ht, Hk.
    destruct key; [simpl in Hlen; lia | reflexivity]. }
  split; [exact Hp|]. split.
  - unfold Auth.loginCommand. cbn [find]. rewrite Hp, Ht.
    destruct key; [simpl in Hlen; lia | reflexivity].
  - unfold Auth.loginCommand.
    destruct (ws1 ++ key ++ ws2) as [|u r] eqn:E.
    { destruct ws1; [|discriminate]. destruct key; [simpl in Hlen; lia|].
      discriminate. }
    unfold Auth.loginWith. rewrite <- E.
    now rewrite (padded_key_invalid _ _ _ H1 H2 Hne).
Qed.

(** X16.  When [login] returns, the service has accepted the key, and the
    key it has stored has the valid format and is the key it was given
    (trimmed, at the prompt).  The chat command then passes its key check: it
    enters its loop exactly when its header box fits the terminal, which
    takes a box of 25, so 29 columns. *)
Theorem login_success_stores_valid_key
    (key : option jsstring) (attempts : list jsstring)
    (reply : Auth.user_reply) (c : ChatInstanceConfig) (options : Options) :
  Auth.ended (Auth.loginCommand key attempts reply c) = Auth.Returned ->
  exists stored,
    apiKey (Auth.config (Auth.loginCommand key attempts reply c))
    = Some stored /\
    validateApiKey stored = true /\
    (exists u, reply = Auth.UserFound u) /\
    In stored (match key with
               | Some (u :: r) => [u :: r]
               | _ => map trim attempts
               end) /\
    forall columns,
      alive (chatEntry columns
               (forChat (Auth.config (Auth.loginCommand key attempts reply c)))
               options)
      = (25 <=? boxWidthOf columns None)%Z.
Proof.
  assert (H : forall k,
             Auth.ended (Auth.loginWith k reply c) = Auth.Returned ->
             apiKey (Auth.config (Auth.loginWith k reply c)) = Some k
             /\ validateApiKey k = true /\
             (exists u, reply = Auth.UserFound u) /\
             forall columns,
               alive (chatEntry columns
                        (forChat (Auth.config (Auth.loginWith k reply c)))
                        options)
               = (25 <=? boxWidthOf columns None)%Z).
  { intros k. unfold Auth.loginWith. destruct k as [|a k]; [discriminate|].
    destruct (validateApiKey (a :: k)) eqn:Ek; [|discriminate].
    destruct reply as [m|u]; [discriminate|]. intros _.
    split; [reflexivity|]. split; [reflexivity|].
    split; [now exists u|]. intros columns.
    now rewrite chatEntry_enters. }
  assert (Hprompt :
            Auth.ended
              (match find Auth.promptAccepts attempts with
               | Some input => Auth.loginWith (trim input) reply c
               | None => {| Auth.config := c; Auth.shown := [];
                            Auth.ended := Auth.AtPrompt |}
               end) = Auth.Returned ->
            exists stored,
              apiKey (Auth.config
                        (match find Auth.promptAccepts attempts with
                         | Some input => Auth.loginWith (trim input) reply c
                         | None => {| Auth.config := c; Auth.shown := [];
                                      Auth.ended := Auth.AtPrompt |}
                         end)) = Some stored /\
              validateApiKey stored = true /\
              (exists u, reply = Auth.UserFound u) /\
              In stored (map trim attempts) /\
              forall columns,
                alive (chatEntry columns
                         (forChat
                            (Auth.config
                               (match find Auth.promptAccepts attempts with
                                | Some input =>
                                    Auth.loginWith (trim input) reply c
                                | None => {| Auth.config := c;
                                             Auth.shown := [];
                                             Auth.ended := Auth.AtPrompt |}
                                end)))
                         options)
                = (25 <=? boxWidthOf columns None)%Z).
  { destruct (find Auth.promptAccepts attempts) as [input|] eqn:Ef;
      [|discriminate].
    intros Hr. destruct (H _ Hr) as [H1 [H2 [H3 H4]]].
    exists (trim input). repeat split; try assumption.
    apply find_some in Ef as [Hin _]. now apply in_map. }
  unfold Auth.loginCommand. destruct key as [[|a k]|].
  - exact Hprompt.
  - intros Hr. destruct (H _ Hr) as [H1 [H2 [H3 H4]]].
    exists (a :: k). repeat split; try assumption. now left.
  - exact Hprompt.
Qed.

(** X17.  A login with a key of the valid format that the service rejects
    ends with status 1 and with no key stored: a key that was stored before
    is gone as well, and the chat command refuses to start. *)
Theorem rejected_login_erases_key
    (key : jsstring) (attempts : list jsstring) (m : jsstring)
    (c : ChatInstanceConfig) (options : Options) :
  validateApiKey key = true ->
  let out := Auth.loginCommand (Some key) attempts (Auth.UserRejected m) c in
  apiKey (Auth.config out) = None /\
  Auth.ended out = Auth.Exited 1 /\
  alive (start (forChat (Auth.config out)) options) = false.
Proof.
  intros Hk out. subst out.
  pose proof (valid_key_shape _ Hk) as [Hlen _].
  destruct key as [|a k]; [simpl in Hlen; lia|].
  unfold Auth.loginCommand, Auth.loginWith. rewrite Hk.
  repeat split.
Qed.

Lemma sliceLast_split (n : nat) (s : jsstring) :
  s = firstn (length s - n) s ++ sliceLast n s /\
  length (sliceLast n s) = Nat.min n (length s).
Proof.
  unfold sliceLast. split.
  - now rewrite firstn_skipn.
  - rewrite length_skipn. lia.
Qed.

(** X18.  [getDisplayConfig] shows of a stored key three stars and its
    last four code units: of a key of the valid format at least 19 code
    units stay hidden, while a key of four code units or fewer is shown
    whole. *)
Theorem display_shows_last_four (c : ChatInstanceConfig) (key : jsstring) :
  apiKey c = Some key -> key <> [] ->
  exists hidden visible,
    key = hidden ++ visible /\
    displayApiKey c = Some (STARS ++ visible) /\
    length visible = Nat.min 4 (length key) /\
    (validateApiKey key = true -> (19 <= length hidden)%nat) /\
    ((length key <= 4)%nat -> visible = key).
Proof.
  intros Hk Hne. destruct (sliceLast_split 4 key) as [E L].
  exists (firstn (length key - 4) key), (sliceLast 4 key).
  split; [exact E|]. split.
  - unfold displayApiKey. rewrite Hk. destruct key; [contradiction|].
    reflexivity.
  - split; [exact L|]. split.
    + intros Hv. apply valid_key_shape in Hv as [Hlen _].
      rewrite length_firstn. lia.
    + intros Hs. unfold sliceLast.
      replace (length key - 4)%nat with 0%nat by lia. reflexivity.
Qed.

Section ConfigSetFacts.

Variable parseFloat : jsstring -> option Q.


(** X19.  [config set streamResponse <value>] never fails, whatever the
    value: it stores [true] when the value is [true] in any letter case and
    [false] otherwise, and a chat session started without [--stream] streams
    exactly in the first case. *)
Theorem set_streamResponse_decides_streaming
    (value : jsstring) (c : ChatInstanceConfig) (options : Options) :
  opt_stream options <> Some true ->
  exists c',
    configSet parseFloat (Some (lit "streamResponse")) (Some value) c
    = inr c' /\
    streamResponse c' = Some (str_eqb (toLowerCase value) TRUE) /\
    useStream (forChat c') options = str_eqb (toLowerCase value) TRUE /\
    provider (forChat c') options = provider (forChat c) options /\
    model (forChat c') options = model (forChat c) options /\
    apiKey c' = apiKey c.
Proof.
  intros Ho. eexists. split; [reflexivity|].
  cbn [store typedValue streamResponse apiKey].
  repeat split. unfold useStream. cbn.
  destruct (opt_stream options) as [[|]|]; try reflexivity. congruence.
Qed.

(** X20.  After [config set defaultProvider <name>], a chat session
    started without [--provider] sends its requests to [name] as stored, even
    when [name] is empty: the built-in default is only used when nothing is
    stored.  Model, streaming and key are left as they were. *)
Theorem set_defaultProvider_reaches_chat
    (name : jsstring) (c : ChatInstanceConfig) (options : Options) :
  exists c',
    configSet parseFloat (Some (lit "defaultProvider")) (Some name) c
    = inr c' /\
    provider (forChat c') options = or_else (opt_provider options) name /\
    model (forChat c') options = model (forChat c) options /\
    useStream (forChat c') options = useStream (forChat c) options /\
    apiKey c' = apiKey c.
Proof. eexists. split; [reflexivity|]. repeat split. Qed.







End ConfigSetFacts.

End KeyFacts.

(* ================================================================== *)
(** * The further properties on concrete inputs *)

Lemma no_sep_check (sep : N) (l : jsstring) :
  forallb (fun c => negb (c =? sep)) l = true -> ~ In sep l.
Proof.
  rewrite forallb_forall. intros H Hin. specialize (H _ Hin).
  now rewrite N.eqb_refl in H.
Qed.

Lemma carriage_returns_tolerated_witness :
  onData Json.parse (closeLines [13; 10] helloRecords)
  = onData Json.parse (closeLines [10] helloRecords).
Proof.
  apply (carriage_returns_tolerated Json.parse helloRecords).
  repeat constructor; apply no_sep_check; reflexivity.
Defined.

Example helloRecords_decoded :
  onData Json.parse (closeLines [13; 10] helloRecords)
  = ([JString (lit "Hel"); JString (lit "lo")], true).
Proof. reflexivity. Qed.

Lemma error_after_sentinel_unreported_witness :
  feed Json.parse helloByLines (StreamError (lit "reset"))
  = feed Json.parse helloByLines StreamEnd.
Proof.
  apply (error_after_sentinel_unreported Json.parse helloByLines
           (lit "reset")).
  reflexivity.
Defined.

Lemma transcript_is_seed_then_exchanges_witness :
  messages (chatCommandOn (Some 40%Z) Json.parse demoConfig terseOptions
              sampleRounds)
  = seed terseOptions
    ++ flat_map render
         (exchanges (replyText Json.parse demoConfig terseOptions)
                    sampleRounds []).
Proof.
  apply (transcript_is_seed_then_exchanges Json.parse demoConfig terseOptions
           (Some 40%Z) sampleRounds).
  reflexivity.
Defined.

(** A failed question, a clearing, then two questions of which the second
    fails: the exchanges, and the contexts sent. *)
Example sampleRounds_history :
  exchanges (replyText Json.parse demoConfig terseOptions) sampleRounds []
  = [(lit "hi", Some (lit "Hello")); (lit "more", None)] /\
  contexts (replyText Json.parse demoConfig terseOptions)
           (seed terseOptions) sampleRounds []
  = [seed terseOptions ++ [userMessage (lit "Tell me")];
     seed terseOptions ++ [userMessage (lit "hi")];
     seed terseOptions ++ [userMessage (lit "hi");
                           assistantMessage (lit "Hello");
                           userMessage (lit "more")]].
Proof. vm_compute. split; reflexivity. Qed.

(** On a terminal of 28 columns the chat stops at its header. *)
Example chat_stops_on_narrow_terminal :
  chatCommandOn (Some 28%Z) Json.parse demoConfig terseOptions sampleRounds
  = stopped [ClearScreen].
Proof. reflexivity. Qed.

Lemma slash_lines_stay_local_witness :
  let st' := iteration Json.parse demoConfig terseOptions twoTurns
                       (lit "/model gpt-5") saysHello in
  sent st' = sent twoTurns /\ messages st' = messages twoTurns.
Proof.
  destruct (slash_lines_stay_local Json.parse demoConfig terseOptions
              twoTurns (lit "/model gpt-5") saysHello eq_refl eq_refl)
    as [Hs [Hm _]].
  split; [exact Hs | apply Hm; discriminate].
Defined.

Lemma requests_carry_the_history_witness :
  sent (chatCommandOn (Some 40%Z) Json.parse demoConfig terseOptions
          sampleRounds)
  = map (requestFor demoConfig terseOptions)
        (contexts (replyText Json.parse demoConfig terseOptions)
                  (seed terseOptions) sampleRounds []).
Proof.
  apply (requests_carry_the_history Json.parse demoConfig terseOptions
           (Some 40%Z) sampleRounds).
  reflexivity.
Defined.

Lemma ask_sends_what_chat_sends_witness :
  let cfg := Settings.forChat demoSettings in
  Ask.request (Ask.askCommand Json.parse demoSettings terseOptions
                              (Some Ask.PLAIN) (lit " Why? ") saysHello)
  = Some (requestFor cfg terseOptions
            (seed terseOptions ++ [userMessage (lit " Why? ")])) /\
  sent (iteration Json.parse cfg terseOptions twoTurnsCleared
                  (lit " Why? ") saysHello)
  = sent twoTurnsCleared
    ++ match Ask.request (Ask.askCommand Json.parse demoSettings terseOptions
                                         (Some Ask.PLAIN)
                                         (trim (lit " Why? ")) saysHello) with
       | Some r => [r]
       | None => []
       end.
Proof.
  destruct (ask_sends_what_chat_sends Json.parse demoSettings terseOptions
              (Some Ask.PLAIN) (lit " Why? ") saysHello saysHello eq_refl)
    as [H1 H2].
  split; [exact H1 | apply H2; reflexivity].
Defined.

Example wrapText_example :
  Terminal.wrapText (Some 20%Z)
    (lit "the quick  brown fox jumps over a supercalifragilistic dog ") None
  = [lit "the quick "; lit "brown fox"; lit "jumps over a";
     lit "supercalifragilistic"; lit "dog "].
Proof. reflexivity. Qed.

Lemma wrapText_width_witness :
  let maxWidth :=
    Terminal.num_or None
      (Z.min (Terminal.getTerminalWidth (Some 20%Z) - 8) 100) in
  (Z.of_nat (length (lit "supercalifragilistic")) <= maxWidth)%Z \/
  (In (lit "supercalifragilistic")
      (split 32
         (lit "the quick  brown fox jumps over a supercalifragilistic dog "))
   /\ (maxWidth <= Z.of_nat (length (lit "supercalifragilistic")))%Z).
Proof.
  apply (wrapText_width (Some 20%Z)
           (lit "the quick  brown fox jumps over a supercalifragilistic dog ")
           None (lit "supercalifragilistic")).
  vm_compute. right; right; right; left. reflexivity.
Defined.

Example createSeparator_of_width_30 :
  Terminal.createSeparator None Terminal.HLINE (Some 30%Z)
  = Some (List.repeat 9472 26).
Proof. reflexivity. Qed.

Example createSeparator_narrow_terminal :
  Terminal.createSeparator (Some 3%Z) Terminal.HLINE None = None /\
  Terminal.createSeparator (Some 4%Z) Terminal.HLINE None = Some [].
Proof. split; reflexivity. Qed.

(** The header of the chat command, 23 code units long, needs a terminal of
    at least 29 columns. *)
Example chat_header_needs_29_columns :
  Terminal.formatChatBox (Some 28%Z) (lit "ChatInstance CLI v1.0.0") None
  = None /\
  Terminal.formatChatBox (Some 29%Z) (lit "ChatInstance CLI v1.0.0") None
  = Some [9484 :: List.repeat 9472 23 ++ [9488];
          9474 :: lit "ChatInstance CLI v1.0.0" ++ [9474];
          9492 :: List.repeat 9472 23 ++ [9496]].
Proof. split; reflexivity. Qed.

Lemma formatChatBox_shape_witness :
  exists top mid bottom before after,
    [[9484] ++ List.repeat 9472 24 ++ [9488];
     [9474] ++ List.repeat 32 5 ++ lit "Chat Commands" ++ List.repeat 32 6
     ++ [9474];
     [9492] ++ List.repeat 9472 24 ++ [9496]]
    = [top; mid; bottom] /\
    Z.of_nat (length top) = boxWidthOf (Some 30%Z) None /\
    Z.of_nat (length mid) = boxWidthOf (Some 30%Z) None /\
    Z.of_nat (length bottom) = boxWidthOf (Some 30%Z) None /\
    mid = [9474] ++ List.repeat 32 before ++ lit "Chat Commands"
          ++ List.repeat 32 after ++ [9474] /\
    (after = before \/ after = S before).
Proof.
  apply (formatChatBox_shape (Some 30%Z) (lit "Chat Commands") None).
  reflexivity.
Defined.

Lemma padded_key_prompt_and_option_witness :
  Auth.promptAccepts paddedKey = true /\
  Auth.loginCommand None (paddedKey :: []) (Auth.UserFound someUser)
                    demoSettings
  = Auth.loginCommand (Some (lit "ci_0123456789abcdefghij")) []
                      (Auth.UserFound someUser) demoSettings /\
  Auth.loginCommand (Some paddedKey) [] (Auth.UserFound someUser)
                    demoSettings
  = {| Auth.config := demoSettings; Auth.shown := [Auth.InvalidFormat];
       Auth.ended := Auth.Exited 1 |}.
Proof.
  apply (padded_key_prompt_and_option [32] (lit "ci_0123456789abcdefghij")
           [10] [] (Auth.UserFound someUser) demoSettings);
    [reflexivity | reflexivity | reflexivity | discriminate].
Defined.

Lemma login_success_stores_valid_key_witness :
  exists stored,
    Settings.apiKey
      (Auth.config (Auth.loginCommand None [lit "secret"; paddedKey]
                                      (Auth.UserFound someUser) demoSettings))
    = Some stored /\
    Settings.validateApiKey stored = true /\
    (exists u, Auth.UserFound someUser = Auth.UserFound u) /\
    In stored (map trim [lit "secret"; paddedKey]) /\
    forall columns,
      alive (chatEntry columns
               (Settings.forChat
                  (Auth.config
                     (Auth.loginCommand None [lit "secret"; paddedKey]
                                        (Auth.UserFound someUser)
                                        demoSettings)))
               terseOptions)
      = (25 <=? boxWidthOf columns None)%Z.
Proof.
  apply (login_success_stores_valid_key None [lit "secret"; paddedKey]
           (Auth.UserFound someUser) demoSettings terseOptions).
  reflexivity.
Defined.

Lemma rejected_login_erases_key_witness :
  let out := Auth.loginCommand (Some otherKey) []
               (Auth.UserRejected (lit "Authentication failed."))
               demoSettings in
  Settings.apiKey (Auth.config out) = None /\
  Auth.ended out = Auth.Exited 1 /\
  alive (start (Settings.forChat (Auth.config out)) terseOptions) = false.
Proof.
  apply (rejected_login_erases_key otherKey []
           (lit "Authentication failed.") demoSettings terseOptions).
  reflexivity.
Defined.

Lemma display_shows_last_four_witness :
  exists hidden visible,
    lit "ci_0123456789abcdefghij" = hidden ++ visible /\
    Settings.displayApiKey demoSettings
    = Some (Settings.STARS ++ visible) /\
    length visible = 4%nat /\ (19 <= length hidden)%nat.
Proof.
  destruct (display_shows_last_four demoSettings
              (lit "ci_0123456789abcdefghij") eq_refl)
    as [hidden [visible [E [D [L [Hv _]]]]]]; [discriminate|].
  exists hidden, visible.
  split; [exact E|]. split; [exact D|]. split; [exact L|].
  apply Hv. reflexivity.
Defined.

Example display_of_demo_key :
  Settings.displayApiKey demoSettings = Some (lit "***ghij").
Proof. reflexivity. Qed.

Lemma set_streamResponse_decides_streaming_witness :
  exists c',
    Settings.configSet (fun _ => None) (Some (lit "streamResponse"))
                       (Some (lit "yes")) demoSettings
    = inr c' /\
    Settings.streamResponse c'
    = Some (str_eqb (toLowerCase (lit "yes")) Settings.TRUE) /\
    useStream (Settings.forChat c') terseOptions
    = str_eqb (toLowerCase (lit "yes")) Settings.TRUE /\
    provider (Settings.forChat c') terseOptions
    = provider (Settings.forChat demoSettings) terseOptions /\
    model (Settings.forChat c') terseOptions
    = model (Settings.forChat demoSettings) terseOptions /\
    Settings.apiKey c' = Settings.apiKey demoSettings.
Proof.
  apply (set_streamResponse_decides_streaming (fun _ => None) (lit "yes")
           demoSettings terseOptions).
  discriminate.
Defined.


(** [parseInt] gives a double: above 2^53 not every integer is one. *)
Example set_maxTokens_example :
  Settings.parseInt (lit " -150 tokens") = Some (Settings.Finite (-150)) /\
  Settings.parseInt (lit "tokens") = None /\
  Settings.parseInt (lit "9007199254740993")
  = Some (Settings.Finite 9007199254740992) /\
  Settings.parseInt (lit "9007199254740995")
  = Some (Settings.Finite 9007199254740996) /\
  Settings.parseInt (lit "0x1F") = Some (Settings.Finite 31).
Proof. vm_compute. repeat split; reflexivity. Qed.
